(** * Poison Game front end: board rules, turn derivation, session ids,
    the proof engine's guards, the start_game handshake and the action lock.

  The development follows the TypeScript sources of the front end:
  - zkPoisonEngine.ts      : [ZkPoisonEngineBoard] ([validateBoard]) and
                             [ZkPoisonEngine] (the engine class)
  - PoisonGameGame.tsx     : [BoardEditor], [Turn], [ActionLock]
  - GameLobby.tsx          : [SessionId]
  - poisonGameService.ts   : [Service]; [AuthEntryUtils] is the merge
                             helper it imports, which is not among the
                             sources
  [Sample] is a concrete environment to run the service and the engine on.
  Further parts of the same sources follow: [ZkPoisonEngineRest]
  ([computeBoardHash], [destroy], [generateSalt]), [BoardStore] (the
  localStorage helpers), [Points] ([parsePoints]), [EditorSession] (the
  editor over a sequence of presses) and [CommitHandler]
  ([handleCommitBoard]), with [Text] for decimal and hexadecimal text.

  JavaScript numbers that only ever hold integers are [Z]; array lengths and
  array positions produced by [Array.prototype.map] are [nat]; template
  literals are string concatenations with [pretty] for the decimal rendering
  of a number.  An [async] function is a state transformer that ends in a
  value or a thrown exception; calls of collaborators that are not part of
  these sources (SDK, RPC server, wallet, Noir, Barretenberg) are parameters
  and are recorded in the state. *)

From stdpp Require Import base decidable option list strings pretty gmap.
From Stdlib Require Import ZArith Lia Ascii.

#[local] Open Scope Z_scope.
#[local] Open Scope string_scope.

(** ** Which of the two revisions of a source file is meant

    zkPoisonEngine.ts and poisonGameService.ts each come in two revisions
    with the same control flow: one with short messages, which throws on a
    proof of the wrong size, and one that logs every step, words its
    messages differently and only warns about the proof size. *)
Inductive Revision :=
| Terse      (** poisonGameService.ts; zkPoisonEngine.ts "ZK engine for Poison Game" *)
| Verbose.   (** the logging service; zkPoisonEngine.ts "production-ready ZK engine" *)

(** ** Tiles and boards *)

(** [TileType = 0 | 1 | 2] is only a compile-time annotation: at run time a
    board is an array of numbers (it is read back from localStorage through
    JSON.parse), and [validateBoard] re-checks the values. *)
Abbreviation Tiles := (list Z).

Definition Normal : Z := 0.
Definition Poison : Z := 1.
Definition Shield : Z := 2.

(** [tiles.filter(t => t === v).length] *)
Definition countTile (v : Z) (tiles : Tiles) : nat :=
  length (filter (λ t, t = v) tiles).

(** [t !== 0 && t !== 1 && t !== 2] *)
Definition notATile (t : Z) : Prop := t ≠ 0 ∧ t ≠ 1 ∧ t ≠ 2.

#[local] Instance notATile_dec t : Decision (notATile t).
Proof. unfold notATile. apply _. Defined.

Definition isTile (t : Z) : Prop := t = 0 ∨ t = 1 ∨ t = 2.

(** [tiles.some(p)] *)
Definition some {A} (P : A → Prop) `{∀ x, Decision (P x)} (l : list A) : bool :=
  bool_decide (Exists P l).

(** The object literal [{ valid, error? }] returned by [validateBoard]. *)
Record Validation := { valid : bool; error : option string }.

Definition accepted : Validation := {| valid := true; error := None |}.
Definition rejected (msg : string) : Validation :=
  {| valid := false; error := Some msg |}.

(** *** zkPoisonEngine.ts, [validateBoard] *)
Module ZkPoisonEngineBoard.

Definition validateBoard (rev : Revision) (tiles : Tiles) : Validation :=
  if bool_decide (length tiles ≠ 15%nat)
  then rejected ("Need 15 tiles, got " +:+ pretty (length tiles))
  else if some notATile tiles
  then rejected "Invalid tile values"
  else
    let poisons := countTile 1 tiles in
    let shields := countTile 2 tiles in
    if bool_decide (poisons ≠ 2%nat)
    then rejected ((match rev with
                    | Terse => "Need exactly 2 poison tiles, got "
                    | Verbose => "Need 2 poison, got "
                    end) +:+ pretty poisons)
    else if bool_decide (shields ≠ 1%nat)
    then rejected ((match rev with
                    | Terse => "Need exactly 1 shield tile, got "
                    | Verbose => "Need 1 shield, got "
                    end) +:+ pretty shields)
    else accepted.

End ZkPoisonEngineBoard.

(** ** The board editor (commit phase of PoisonGameGame.tsx) *)

Module BoardEditor.

(** The [onClick] closure of tile [idx].  [myBoard], [activeTool],
    [poisonCount] and [shieldCount] are the values of the render that
    created the closure; the counts are derived from that same [myBoard].
    [None] is the bare [return] (no [setMyBoard]); [Some next] is
    [setMyBoard(next)].  The closures are created by [myBoard.map], so
    [idx] is a position of the array; [next[idx]] is [undefined] elsewhere,
    which is what the [option] of the lookup stands for. *)
Definition onClick (myBoard : Tiles) (activeTool : Z) (idx : nat)
  : option Tiles :=
  let poisonCount := countTile 1 myBoard in
  let shieldCount := countTile 2 myBoard in
  let next := myBoard in
  if bool_decide (next !! idx = Some activeTool)
  then Some (<[idx := 0]> next)
  else if bool_decide (activeTool = 1 ∧ (2 ≤ poisonCount)%nat ∧ next !! idx ≠ Some 1)
  then None
  else if bool_decide (activeTool = 2 ∧ (1 ≤ shieldCount)%nat ∧ next !! idx ≠ Some 2)
  then None
  else Some (<[idx := activeTool]> next).

(** The handler of the other revision: a committed board ignores clicks and
    the bound checks do not re-test the clicked slot. *)
Definition onClickRev (boardCommitted : bool) (myBoard : Tiles)
    (activeTool : Z) (idx : nat) : option Tiles :=
  let poisonCount := countTile 1 myBoard in
  let shieldCount := countTile 2 myBoard in
  if boardCommitted then None
  else
    let newBoard := myBoard in
    if bool_decide (newBoard !! idx = Some activeTool)
    then Some (<[idx := 0]> newBoard)
    else if bool_decide (activeTool = 1 ∧ (2 ≤ poisonCount)%nat)
    then None
    else if bool_decide (activeTool = 2 ∧ (1 ≤ shieldCount)%nat)
    then None
    else Some (<[idx := activeTool]> newBoard).

(** The [myBoard] state after the click: React keeps the old state when the
    handler returns without calling the setter. *)
Definition boardAfterClick (myBoard : Tiles) (activeTool : Z) (idx : nat)
  : Tiles :=
  default myBoard (onClick myBoard activeTool idx).

(** The placement bounds the editor maintains. *)
Definition withinBounds (b : Tiles) : Prop :=
  Forall isTile b ∧ (countTile 1 b ≤ 2)%nat ∧ (countTile 2 b ≤ 1)%nat.

End BoardEditor.

(** ** Turn derivation (play phase of PoisonGameGame.tsx) *)

Module Turn.

(** The fields of the contract's [GameState] that the derivation reads. *)
Record GameState := {
  current_turn : Z;
  has_pending_attack : bool;
  pending_attack_tile : Z;
  winner : Z
}.

(** [gameState] is [GameState | null]; [gameState?.f] is [undefined] on
    [null].  [!undefined] is [true], [undefined === n] is [false]. *)
Definition isMyAttackTurn (gameState : option GameState) (myPlayerNum : Z)
  : bool :=
  bool_decide (myPlayerNum ≠ 0)
  && negb (from_option has_pending_attack false gameState)
  && bool_decide (current_turn <$> gameState = Some myPlayerNum).

Definition isMyDefenseTurn (gameState : option GameState) (myPlayerNum : Z)
  : bool :=
  bool_decide (myPlayerNum ≠ 0)
  && bool_decide (has_pending_attack <$> gameState = Some true)
  && bool_decide (current_turn <$> gameState ≠ Some myPlayerNum).

(** The three blocks of the play phase, named after their CSS classes. *)
Inductive Panel := attack_section | defense_section | waiting_state.

#[export] Instance Panel_eq_dec : EqDecision Panel.
Proof. solve_decision. Defined.

(** [{isMyAttackTurn && ...} {isMyDefenseTurn && ...}
     {!isMyAttackTurn && !isMyDefenseTurn && ...}], in render order. *)
Definition playPanels (gameState : option GameState) (myPlayerNum : Z)
  : list Panel :=
  (if isMyAttackTurn gameState myPlayerNum then [attack_section] else [])
  ++ (if isMyDefenseTurn gameState myPlayerNum then [defense_section] else [])
  ++ (if negb (isMyAttackTurn gameState myPlayerNum)
         && negb (isMyDefenseTurn gameState myPlayerNum)
      then [waiting_state] else []).

End Turn.

(** ** Session ids (GameLobby.tsx) *)

Module SessionId.

(** What a [Uint32Array] slot holds after a store, and what [x >>> 0] yields
    on a non-negative integer. *)
Definition Uint32 (n : Z) : Z := n mod 2 ^ 32.

(** A binary64 value in [[0,1)]: [mantissa / 2^scale].  Every double in
    that interval has this form with a mantissa of at most 53 bits and a
    scale of at most 1074 (the smallest subnormal is [2^-1074]). *)
Record Double := {
  mantissa : Z;
  scale : Z
}.

Definition double_in_unit_interval (x : Double) : Prop :=
  (0 ≤ mantissa x < 2 ^ 53)%Z
  ∧ (0 ≤ scale x ≤ 1074)%Z
  ∧ (mantissa x < 2 ^ scale x)%Z.

(** The sources of randomness the lobby reads. *)
Record Randomness := {
  (** [typeof crypto !== 'undefined' && crypto.getRandomValues] *)
  crypto_available : bool;
  (** the word the [n]-th call of [crypto.getRandomValues(buffer)] writes
      into [buffer[0]] *)
  getRandomValues : nat → Z;
  (** the double returned by [Math.random()] *)
  Math_random : Double
}.

(** The integer nearest to [n / 2^s], for [s > 0]; a tie goes to the even
    one. *)
Definition nearestEven (n s : Z) : Z :=
  let q := n / 2 ^ s in
  let rest := n mod 2 ^ s in
  let half := 2 ^ (s - 1) in
  if bool_decide ((half < rest)%Z ∨ (rest = half ∧ Z.odd q = true))
  then q + 1
  else q.

(** The binary64 nearest to [n / 2^k] ([n], [k] natural; no overflow for the
    values met here), as [(q, e)] standing for [q * 2^e]: [2^e] is the unit
    in the last place of the binade of [n / 2^k], or [2^-1074] below the
    normal range. *)
Definition roundToDouble (n k : Z) : Z * Z :=
  let e := Z.max (Z.log2 n - k - 52) (-1074) in
  let s := k + e in
  if bool_decide (0 < s)%Z then (nearestEven n s, e) else (n * 2 ^ (- s), e).

(** [Math.floor] of the double [q * 2^e]. *)
Definition Math_floor (d : Z * Z) : Z :=
  if bool_decide (0 ≤ d.2)%Z then d.1 * 2 ^ d.2 else d.1 / 2 ^ (- d.2).

(** [Math.floor(Math.random() * c)] for a positive integer constant [c]
    below [2^53]: the product of the two doubles is rounded to a double
    before [Math.floor] sees it. *)
Definition floor_random_times (x : Double) (c : Z) : Z :=
  Math_floor (roundToDouble (mantissa x * c) (scale x)).

(** [while (value === 0) { crypto.getRandomValues(buffer); value = buffer[0]; }]
    started after [calls] earlier draws; [fuel] bounds the iterations. *)
Fixpoint drawUntilNonZero (draw : nat → Z) (calls fuel : nat) : option Z :=
  match fuel with
  | O => None
  | S fuel' =>
      let value := Uint32 (draw calls) in
      if bool_decide (value = 0)
      then drawUntilNonZero draw (S calls) fuel'
      else Some value
  end.

(** [createRandomSessionId] of the lobby (and of PoisonGameGame.tsx). *)
Definition createRandomSessionId (rnd : Randomness) (fuel : nat) : option Z :=
  if crypto_available rnd
  then drawUntilNonZero (getRandomValues rnd) 0 fuel
  else
    let v := Uint32 (floor_random_times (Math_random rnd) 0xffffffff) in
    Some (if bool_decide (v = 0) then 1 else v).

(** The other revision of GameLobby.tsx draws the id inline in
    [handleCreateGame]: [Math.floor(Math.random() * 1000000000)]. *)
Definition handleCreateGame_sessionId (rnd : Randomness) : Z :=
  floor_random_times (Math_random rnd) 1000000000.

(** A browser without [crypto] whose [Math.random()] returns [x], and one
    with [crypto] whose draws are [draw]. *)
Definition without_crypto (x : Double) : Randomness :=
  {| crypto_available := false; getRandomValues := λ _, 0; Math_random := x |}.

Definition with_crypto (draw : nat → Z) : Randomness :=
  {| crypto_available := true; getRandomValues := draw;
     Math_random := {| mantissa := 0; scale := 0 |} |}.

(** [r / 2^53], and the largest double below 1. *)
Definition over_2_53 (r : Z) : Double := {| mantissa := r; scale := 53 |}.
Definition largest_below_one : Double := over_2_53 (2 ^ 53 - 1).

End SessionId.

(** ** The action lock ([runAction] of PoisonGameGame.tsx) *)

Module ActionLock.

(** What a promise settles with. *)
Inductive Settled := Fulfilled | Rejected (reason : string).

(** The component state [runAction] touches: the [actionLock] ref, and, for
    the statements below, the actions whose body has been entered and those
    still awaiting completion.  There is no queue in the source; [pending]
    lists bodies that are running, not calls that wait for the lock. *)
Record Runner (Action : Type) := {
  actionLock : bool;
  entered : list Action;
  pending : list Action
}.
Arguments actionLock {Action} _.
Arguments entered {Action} _.
Arguments pending {Action} _.

(** What the caller of [runAction] observes when the call returns to it. *)
Inductive Outcome :=
| ReturnedAtOnce      (** [if (actionLock.current || isBusy) return;] *)
| Awaiting.           (** suspended at [await action()] *)

(** [runAction] up to its first suspension point.  [isBusy] is the value the
    render that created the closure computed. *)
Definition runAction_enter {Action} (st : Runner Action) (isBusy : bool)
    (action : Action) : Runner Action * Outcome :=
  if actionLock st || isBusy then (st, ReturnedAtOnce)
  else ({| actionLock := true;
           entered := entered st ++ [action];
           pending := action :: pending st |}, Awaiting).

(** The rest of [runAction], run when [action()] settles:
    [finally { actionLock.current = false; }], after which the promise of
    [runAction] settles the way the action did. *)
Definition runAction_resume {Action} `{EqDecision Action} (st : Runner Action)
    (action : Action) (how : Settled) : Runner Action * Settled :=
  ({| actionLock := false;
      entered := entered st;
      pending := filter (λ a, a ≠ action) (pending st) |}, how).

(** [handlePlayAgain] (and [handleStartNewGame] of the other revision):
    [actionLock.current = false], whatever is running; the other
    assignments are React setters.  A body that was entered stays awaited. *)
Definition handlePlayAgain {Action} (st : Runner Action) : Runner Action :=
  {| actionLock := false; entered := entered st; pending := pending st |}.

(** What happens to the lock: a call of [runAction], the completion of an
    entered action, or a press of the Play Again button. *)
Inductive Step (Action : Type) :=
| Invoke (isBusy : bool) (action : Action)
| Settle (action : Action) (how : Settled)
| PlayAgain.
Arguments Invoke {Action} _ _.
Arguments Settle {Action} _ _.
Arguments PlayAgain {Action}.

Definition step {Action} `{EqDecision Action} (st : Runner Action)
    (s : Step Action) : Runner Action :=
  match s with
  | Invoke isBusy action => fst (runAction_enter st isBusy action)
  | Settle action how =>
      if bool_decide (action ∈ pending st)
      then fst (runAction_resume st action how)
      else st
  | PlayAgain => handlePlayAgain st
  end.

(** No press of Play Again among the steps. *)
Definition uninterrupted {Action} (steps : list (Step Action)) : bool :=
  forallb (λ s, match s with PlayAgain => false | _ => true end) steps.

Definition run {Action} `{EqDecision Action} (st : Runner Action)
    (steps : list (Step Action)) : Runner Action :=
  foldl step st steps.

Definition idle {Action} : Runner Action :=
  {| actionLock := false; entered := []; pending := [] |}.

End ActionLock.

(** ** Exceptions and asynchronous code *)

(** A thrown value.  The sources throw [new Error(message)]; [catch] blocks
    re-throw with the caught message spliced into a template; everything else
    is raised inside a collaborator (the Stellar SDK, the RPC server, the
    wallet, Noir or Barretenberg), whose message text is not in the sources. *)
Inductive Exn :=
| Error (message : string)
| ErrorWith (prefix : string) (cause : Exn)
| Raised (by_whom : string) (what : string).

Inductive Result (A : Type) :=
| Ok (a : A)
| Throw (e : Exn).
Arguments Ok {A} _.
Arguments Throw {A} _.

Definition is_Ok {A} (r : Result A) : bool :=
  match r with Ok _ => true | Throw _ => false end.

(** An [async] function over a state [S]: it ends in a final state and either
    a value or a thrown exception.  [await] is sequencing. *)
Definition Async (S A : Type) : Type := S → S * Result A.

Definition resolve {S A} (a : A) : Async S A := λ s, (s, Ok a).
Definition throw {S A} (e : Exn) : Async S A := λ s, (s, Throw e).

Definition await {S A B} (c : Async S A) (k : A → Async S B) : Async S B :=
  λ s, match c s with
       | (s', Ok a) => k a s'
       | (s', Throw e) => (s', Throw e)
       end.

(** [try { c } catch (err) { h err }] *)
Definition try_catch {S A} (c : Async S A) (h : Exn → Async S A) : Async S A :=
  λ s, match c s with
       | (s', Ok a) => (s', Ok a)
       | (s', Throw e) => h e s'
       end.

Definition gets {S A} (f : S → A) : Async S A := λ s, (s, Ok (f s)).
Definition modify {S} (f : S → S) : Async S unit := λ s, (f s, Ok tt).

Notation "'let!' x ':=' c 'in' k" := (await c (λ x, k))
  (at level 10, x pattern, c at level 100, k at level 200,
   format "'[v' 'let!'  x  ':='  c  'in' '/' k ']'").
Notation "'do!' c 'in' k" := (await c (λ _, k))
  (at level 10, c at level 100, k at level 200,
   format "'[v' 'do!'  c  'in' '/' k ']'").
(** [if (cond) throw e;] *)
Notation "'throw_if' b 'then' e 'in' k" :=
  (if b then throw e else k)
  (at level 10, b at level 100, e at level 100, k at level 200,
   format "'[v' 'throw_if'  b  'then'  e  'in' '/' k ']'").

(** A world the collaborators act on, and the record of which of them were
    called, oldest first. *)
Record Running (World Call : Type) := {
  world : World;
  calls : list Call
}.
Arguments world {World Call} _.
Arguments calls {World Call} _.

(** Calling collaborator [f], recorded as [c]. *)
Definition invoke {World Call A} (c : Call) (f : World → World * Result A)
  : Async (Running World Call) A :=
  λ s, let '(w, r) := f (world s) in
       ({| world := w; calls := calls s ++ [c] |}, r).

(** ** The proof engine (zkPoisonEngine.ts, class [ZkProofEngine]) *)

Module ZkPoisonEngine.

Definition Bytes := list Byte.byte.

Record FetchResponse := { ok : bool; status : Z; statusText : string }.

(** The input map handed to [noir.execute]; the hexadecimal rendering of the
    field elements is left to the collaborator. *)
Record CircuitInputs := {
  board_layout : Tiles;
  salt : Z;
  commitment : Bytes;
  tile_index : Z;
  tile_type_result : Z
}.

Record ProofData := { proof : Bytes; publicInputs : list string }.

(** The collaborators of the engine; [Witness] is opaque. *)
Record Toolkit (World Witness : Type) := {
  fetch_circuit : World → World * Result FetchResponse;
  resp_json : World → World * Result unit;
  noir_init : World → World * Result unit;
  new_UltraHonkBackend : World → World * Result unit;
  Barretenberg_new : World → World * Result unit;
  noir_execute : CircuitInputs → World → World * Result Witness;
  backend_generateProof : Witness → World → World * Result ProofData
}.
Arguments fetch_circuit {World Witness} _.
Arguments resp_json {World Witness} _.
Arguments noir_init {World Witness} _.
Arguments new_UltraHonkBackend {World Witness} _.
Arguments Barretenberg_new {World Witness} _.
Arguments noir_execute {World Witness} _.
Arguments backend_generateProof {World Witness} _.

Inductive Call :=
| FetchCircuit | RespJson | NoirInit | NewBackend | NewBarretenberg
| NoirExecute (inputs : CircuitInputs)
| GenerateProof.

(** The private fields of the singleton.  A handle is only ever tested
    against [null]; [_initializing] holds the promise of the first [_doInit],
    kept here as what it settled with. *)
Record Engine := {
  noir : bool;
  backend : bool;
  bb : bool;
  circuit : bool;
  _initialized : bool;
  _initializing : option (Result unit);
  _error : option Exn
}.

Definition fresh : Engine :=
  {| noir := false; backend := false; bb := false; circuit := false;
     _initialized := false; _initializing := None; _error := None |}.

Record State (World : Type) := {
  this : Engine;
  run : Running World Call
}.
Arguments this {World} _.
Arguments run {World} _.

Section Engine.
Context {World Witness : Type}.
Variable rev : Revision.
Variable tk : Toolkit World Witness.

#[local] Abbreviation St := (State World).

Definition call {A} (c : Call) (f : World → World * Result A) : Async St A :=
  λ s, let '(r, a) := invoke c f (run s) in ({| this := this s; run := r |}, a).

Definition set (f : Engine → Engine) : Async St unit :=
  modify (λ s, {| this := f (this s); run := run s |}).

Definition _doInit : Async St unit :=
  try_catch
    (let! resp := call FetchCircuit (fetch_circuit tk) in
     throw_if negb (ok resp)
       then Error ((match rev with
                    | Terse => "Circuit load failed: "
                    | Verbose => "Failed to load circuit: "
                    end) +:+ pretty (status resp) +:+ " " +:+ statusText resp) in
     do! call RespJson (resp_json tk) in
     do! set (λ e, {| noir := noir e; backend := backend e; bb := bb e;
                      circuit := true; _initialized := _initialized e;
                      _initializing := _initializing e; _error := _error e |}) in
     do! set (λ e, {| noir := true; backend := backend e; bb := bb e;
                      circuit := circuit e; _initialized := _initialized e;
                      _initializing := _initializing e; _error := _error e |}) in
     do! call NoirInit (noir_init tk) in
     do! call NewBackend (new_UltraHonkBackend tk) in
     do! set (λ e, {| noir := noir e; backend := true; bb := bb e;
                      circuit := circuit e; _initialized := _initialized e;
                      _initializing := _initializing e; _error := _error e |}) in
     do! call NewBarretenberg (Barretenberg_new tk) in
     set (λ e, {| noir := noir e; backend := backend e; bb := true;
                  circuit := circuit e; _initialized := true;
                  _initializing := _initializing e; _error := None |}))
    (λ err,
     do! set (λ e, {| noir := noir e; backend := backend e; bb := bb e;
                      circuit := circuit e; _initialized := _initialized e;
                      _initializing := _initializing e; _error := Some err |}) in
     throw err).

(** [init]: a second call returns the promise stored by the first. *)
Definition init : Async St unit :=
  λ s,
    if _initialized (this s) then (s, Ok tt)
    else match _initializing (this s) with
         | Some settled => (s, settled)
         | None =>
             let '(s', r) := _doInit s in
             ({| this := {| noir := noir (this s'); backend := backend (this s');
                            bb := bb (this s'); circuit := circuit (this s');
                            _initialized := _initialized (this s');
                            _initializing := Some r;
                            _error := _error (this s') |};
                 run := run s' |}, r)
         end.

(** [tiles[tileIndex]] for a number that holds an integer. *)
Definition at_index (tiles : Tiles) (tileIndex : Z) : option Z :=
  if bool_decide (tileIndex < 0) then None else tiles !! Z.to_nat tileIndex.

Definition generateTileProof (tiles : Tiles) (salt : Z) (commitment : Bytes)
    (tileIndex : Z) (tileType : Z) : Async St Bytes :=
  do! init in
  let! engine := gets this in
  throw_if negb (noir engine) || negb (backend engine)
    then Error "Engine not initialised" in
  throw_if bool_decide (length tiles ≠ 15%nat)
    then Error "Need 15 tiles" in
  throw_if bool_decide (tileIndex < 0) || bool_decide (tileIndex > 14)
    then Error "Invalid tile index" in
  throw_if bool_decide (at_index tiles tileIndex ≠ Some tileType)
    then Error (match rev with
                | Terse => "Tile type mismatch — check board data"
                | Verbose => "Tile type mismatch"
                end) in
  let inputs := {| board_layout := tiles; salt := salt;
                   commitment := commitment; tile_index := tileIndex;
                   tile_type_result := tileType |} in
  let! witness := call (NoirExecute inputs) (noir_execute tk inputs) in
  let! proofData := call GenerateProof (backend_generateProof tk witness) in
  match rev with
  | Terse =>
      throw_if bool_decide (Z.of_nat (length (proof proofData)) ≠ 14592)
        then Error ("Wrong proof size: " +:+ pretty (length (proof proofData))
                    +:+ " (expected 14592). Check bb version matches contract.") in
      resolve (proof proofData)
  | Verbose =>
      (* console.warn only *)
      resolve (proof proofData)
  end.

End Engine.

(** A proof or a witness was asked for. *)
Definition proving (c : Call) : Prop :=
  match c with NoirExecute _ | GenerateProof => True | _ => False end.

(** [after] extends the call record of [before] by calls that ask for no
    witness and no proof. *)
Definition no_proving_since {World} (before after : State World) : Prop :=
  ∃ new, calls (run after) = (calls (run before) ++ new)%list
         ∧ Forall (λ c, ¬ proving c) new.

End ZkPoisonEngine.

(** ** The contract service (poisonGameService.ts, class [PoisonGameService]) *)

Module Service.

Definition Bytes := list Byte.byte.

(** *** Soroban values, as far as the service inspects them *)

Inductive ScVal :=
| scvU32 (n : Z)
| scvI128 (hi lo : Z)
| scvOther.

(** [credentials()]: only address credentials have an [address()]. *)
Inductive Credentials :=
| SourceAccount
| WithAddress (address : string) (nonce : Z)
    (signatureExpirationLedger : Z) (signature : option string).

(** [rootInvocation().function()]: only a contract call has a [contractFn()]. *)
Inductive InvokedFunction :=
| ContractFn (contractAddress : string) (functionName : string)
    (args : list ScVal)
| CreateContract.

Record AuthEntry := {
  credentials : Credentials;
  rootInvocation : InvokedFunction
}.

(** A base64 string handed to [SorobanAuthorizationEntry.fromXDR]: either it
    does not decode, or it is the encoding of an entry. *)
Inductive AuthEntryXdr :=
| Undecodable
| Encoded (entry : AuthEntry).

Inductive Operation :=
| start_game (session_id : Z) (player1 player2 : string)
    (player1_points player2_points : Z)
| commit_board (session_id : Z) (player : string) (board_hash : Bytes)
| respond_to_attack (session_id : Z) (defender : string) (tile_type : Z)
    (proof_blob : Bytes).

Inductive MethodOptions := DEFAULT_METHOD_OPTIONS | ZK_METHOD_OPTIONS.

(** An [AssembledTransaction]; [auth] is [simulationData?.result?.auth].
    Its XDR stands for itself ([txFromXDR(tx.toXDR())] is [tx]). *)
Record Tx := {
  operation : Operation;
  publicKey : string;
  auth : option (list AuthEntry)
}.

Inductive TxStatus := SUCCESS | FAILED | NOT_FOUND.

(** [GetTransactionResponse]; the diagnostic events are only read by the
    message extraction, which is a parameter below. *)
Record TxResponse := { tx_status : TxStatus; diagnostic : string }.

Record SentTx := {
  sendTransactionResponse_hash : option string;
  getTransactionResponse : option TxResponse;
  result : string
}.

(** The signing capability [Pick<ClientOptions, 'signTransaction' |
    'signAuthEntry'>]: which of the two functions are present, and whose
    wallet they belong to. *)
Record Signer := {
  has_signTransaction : bool;
  has_signAuthEntry : bool;
  wallet : string
}.

(** What the wallet's [signAuthEntry] resolves with. *)
Record SignResult := { signedAuthEntry : string; sign_error : option string }.

(** Imported constants ([@/utils/constants]). *)
Record Constants := {
  DEFAULT_AUTH_TTL_MINUTES : Z;
  MULTI_SIG_AUTH_TTL_MINUTES : Z;
  DEFAULT_timeoutInSeconds : Z
}.

(** The collaborators: the generated contract client (build and simulate a
    call), the ledger helpers, the Stellar SDK's signing entry points, the
    wallet, the submission helper and the RPC server. *)
Record Env (World : Type) := {
  simulate : Operation → string → option Signer → MethodOptions →
             World → World * Result Tx;
  calculateValidUntilLedger : Z → World → World * Result Z;
  wallet_signAuthEntry : Signer → string → string →
                         World → World * Result SignResult;
  authorizeEntry : AuthEntry → (string → World → World * Result string) → Z →
                   World → World * Result AuthEntry;
  injectSignedAuthEntry : Tx → AuthEntryXdr → string → Signer → Z →
                          World → World * Result Tx;
  needsNonInvokerSigningBy : Tx → World → World * Result (list string);
  signAuthEntries : Signer → Tx → Z → World → World * Result Tx;
  signAndSendViaLaunchtube : Tx → Z → Z → World → World * Result SentTx;
  getTransaction : string → World → World * Result TxResponse;
  (** [extractError] / [extractErrorFromDiagnostics]: renders a failed
      response as a message and never throws *)
  extractError : TxResponse → string
}.
Arguments simulate {World} _.
Arguments calculateValidUntilLedger {World} _.
Arguments wallet_signAuthEntry {World} _.
Arguments authorizeEntry {World} _.
Arguments injectSignedAuthEntry {World} _.
Arguments needsNonInvokerSigningBy {World} _.
Arguments signAuthEntries {World} _.
Arguments signAndSendViaLaunchtube {World} _.
Arguments getTransaction {World} _.
Arguments extractError {World} _.

Inductive Call :=
| Simulate (op : Operation) (publicKey : string)
| LatestLedger (ttlMinutes : Z)
| AuthorizeEntry (entry : AuthEntry) (validUntil : Z)
| InjectSignedAuthEntry (signedEntry : AuthEntryXdr) (validUntil : Z)
| NeedsNonInvokerSigningBy
| SignAuthEntries (expiration : Z)
| SignAndSend (tx : Tx)
| GetTransaction (hash : string).

(** *** [parseAuthEntry] *)

Record GameParams := {
  sessionId : Z;
  player1 : string;
  player1Points : Z;
  functionName : string
}.

Definition sdk (accessor : string) : Exn := Raised "stellar-sdk" accessor.

(** The body of the [try] block. *)
Definition parseAuthEntry_body (rev : Revision) (authEntryXdr : AuthEntryXdr)
  : Result GameParams :=
  match authEntryXdr with
  | Undecodable => Throw (sdk "SorobanAuthorizationEntry.fromXDR")
  | Encoded authEntry =>
      match credentials authEntry with
      | SourceAccount => Throw (sdk "credentials().address()")
      | WithAddress player1 _ _ _ =>
          match rootInvocation authEntry with
          | CreateContract => Throw (sdk "function().contractFn()")
          | ContractFn _ functionName args =>
              if bool_decide (functionName ≠ "start_game")
              then Throw (Error ((match rev with
                                  | Terse => "Unexpected function in auth entry: "
                                  | Verbose => "Unexpected function: "
                                  end) +:+ functionName))
              else if bool_decide (length args ≠ 2%nat)
              then Throw (Error ((match rev with
                                  | Terse => "Expected 2 args in auth entry, got "
                                  | Verbose => "Expected 2 args, got "
                                  end) +:+ pretty (length args)))
              else
                match args with
                | [scvU32 sessionId; scvI128 _ lo] =>
                    Ok {| sessionId := sessionId; player1 := player1;
                          player1Points := lo; functionName := functionName |}
                | [scvU32 _; _] => Throw (sdk "args[1].i128()")
                | _ => Throw (sdk "args[0].u32()")
                end
          end
      end
  end.

(** [try { ... } catch (err) { throw new Error(`Failed to parse auth entry:
    ${err.message}`) }] *)
Definition parseAuthEntry (rev : Revision) (authEntryXdr : AuthEntryXdr)
  : Result GameParams :=
  match parseAuthEntry_body rev authEntryXdr with
  | Ok gameParams => Ok gameParams
  | Throw err => Throw (ErrorWith "Failed to parse auth entry: " err)
  end.

(** *** The loop of [prepareStartGame] that picks Player 1's entry

    [for (i = 0; i < authEntries.length; i++) { try { addr = ...address();
    if (addr === player1) { player1AuthEntry = authEntries[i]; break; } }
    catch { skip } }] *)
Fixpoint findPlayer1AuthEntry (authEntries : list AuthEntry) (player1 : string)
  : option AuthEntry :=
  match authEntries with
  | [] => None
  | entry :: rest =>
      match credentials entry with
      | WithAddress addr _ _ _ =>
          if bool_decide (addr = player1) then Some entry
          else findPlayer1AuthEntry rest player1
      | SourceAccount => findPlayer1AuthEntry rest player1
      end
  end.

(** The address an entry is attributable to, if it is address-based. *)
Definition entryAddress (entry : AuthEntry) : option string :=
  match credentials entry with
  | WithAddress addr _ _ _ => Some addr
  | SourceAccount => None
  end.

Definition liftResult {S A} (r : Result A) : Async S A := λ s, (s, r).

(** At most one entry of the list is attributable to [player1]. *)
Definition attributable_once (authEntries : list AuthEntry) (player1 : string)
  : Prop :=
  ∀ e1 e2, e1 ∈ authEntries → e2 ∈ authEntries →
           entryAddress e1 = Some player1 → entryAddress e2 = Some player1 →
           e1 = e2.

(** The same entry with another [signatureExpirationLedger]. *)
Definition withExpiration (validUntil : Z) (entry : AuthEntry) : AuthEntry :=
  match credentials entry with
  | WithAddress a n _ sg =>
      {| credentials := WithAddress a n validUntil sg;
         rootInvocation := rootInvocation entry |}
  | SourceAccount => entry
  end.

Section Methods.
Context {World : Type}.
Variable rev : Revision.
Variable K : Constants.
Variable env : Env World.

#[local] Abbreviation St := (Running World Call).

(** Messages of the logging revision carry the method name in brackets. *)
Definition tagged (method msg : string) : string :=
  match rev with
  | Terse => msg
  | Verbose => "[" +:+ method +:+ "] " +:+ msg
  end.

(** [authTtlMinutes ?? fallback] *)
Definition ttl (authTtlMinutes : option Z) (fallback : Z) : Z :=
  default fallback authTtlMinutes.

(** The callback handed to [authorizeEntry] by [prepareStartGame]. *)
Definition signPreimage (player1Signer : Signer) (player1 : string)
    (preimage : string) : World → World * Result string :=
  λ w, match wallet_signAuthEntry env player1Signer preimage player1 w with
       | (w', Ok signResult) =>
           match sign_error signResult with
           | Some message =>
               (w', Throw (Error ("Failed to sign auth entry: " +:+ message)))
           | None => (w', Ok (signedAuthEntry signResult))
           end
       | (w', Throw e) => (w', Throw e)
       end.

Definition prepareStartGame (sessionId : Z) (player1 player2 : string)
    (player1Points player2Points : Z) (player1Signer : Signer)
    (authTtlMinutes : option Z) : Async St AuthEntryXdr :=
  let op := start_game sessionId player1 player2 player1Points player2Points in
  let! tx := invoke (Simulate op player2)
               (simulate env op player2 None DEFAULT_METHOD_OPTIONS) in
  match auth tx with
  | None =>
      throw (Error (tagged "prepareStartGame" "No auth entries found in simulation"))
  | Some authEntries =>
      match findPlayer1AuthEntry authEntries player1 with
      | None =>
          throw (Error (tagged "prepareStartGame"
                          ("No auth entry found for Player 1 (" +:+ player1 +:+ ")")))
      | Some player1AuthEntry =>
          let minutes := ttl authTtlMinutes (MULTI_SIG_AUTH_TTL_MINUTES K) in
          let! validUntilLedgerSeq :=
            invoke (LatestLedger minutes) (calculateValidUntilLedger env minutes) in
          throw_if negb (has_signAuthEntry player1Signer)
            then Error (match rev with
                        | Terse => "signAuthEntry not available on Player 1 signer"
                        | Verbose => "[prepareStartGame] signAuthEntry not available"
                        end) in
          let! signedAuthEntry :=
            invoke (AuthorizeEntry player1AuthEntry validUntilLedgerSeq)
              (authorizeEntry env player1AuthEntry
                 (signPreimage player1Signer player1) validUntilLedgerSeq) in
          resolve (Encoded signedAuthEntry)
      end
  end.

Definition importAndSignAuthEntry (player1SignedAuthEntryXdr : AuthEntryXdr)
    (player2Address : string) (player2Points : Z) (player2Signer : Signer)
    (authTtlMinutes : option Z) : Async St Tx :=
  let! gameParams := liftResult (parseAuthEntry rev player1SignedAuthEntryXdr) in
  throw_if bool_decide (player2Address = player1 gameParams)
    then Error "Cannot play against yourself" in
  let op := start_game (sessionId gameParams) (player1 gameParams)
              player2Address (player1Points gameParams) player2Points in
  let! tx := invoke (Simulate op player2Address)
               (simulate env op player2Address None DEFAULT_METHOD_OPTIONS) in
  (* the logging revision lists [tx.simulationData.result.auth] here *)
  let minutes := ttl authTtlMinutes (MULTI_SIG_AUTH_TTL_MINUTES K) in
  let! validUntilLedgerSeq :=
    invoke (LatestLedger minutes) (calculateValidUntilLedger env minutes) in
  let! txWithInjectedAuth :=
    invoke (InjectSignedAuthEntry player1SignedAuthEntryXdr validUntilLedgerSeq)
      (injectSignedAuthEntry env tx player1SignedAuthEntryXdr player2Address
         player2Signer validUntilLedgerSeq) in
  let player2Tx := txWithInjectedAuth in
  let! needsSigning :=
    invoke NeedsNonInvokerSigningBy (needsNonInvokerSigningBy env player2Tx) in
  if bool_decide (player2Address ∈ needsSigning)
  then
    let! player2Tx' :=
      invoke (SignAuthEntries validUntilLedgerSeq)
        (signAuthEntries env player2Signer player2Tx validUntilLedgerSeq) in
    resolve player2Tx'
  else resolve player2Tx.

(** [for (let i = 0; i < 10; i++) { await sleep(2000); ... }] of
    [commitBoard], with [attempts] iterations left. *)
Fixpoint pollCommit (txHash : string) (attempts : nat) : Async St string :=
  match attempts with
  | O =>
      throw (Error (match rev with
                    | Terse => "commitBoard not confirmed after polling"
                    | Verbose => "Transaction not confirmed after polling"
                    end))
  | S attempts' =>
      let! txResponse := invoke (GetTransaction txHash) (getTransaction env txHash) in
      match tx_status txResponse with
      | SUCCESS => resolve txHash
      | FAILED =>
          throw (Error ((match rev with
                         | Terse => "commitBoard failed: "
                         | Verbose => "Commit failed: "
                         end) +:+ extractError env txResponse))
      | NOT_FOUND => pollCommit txHash attempts'
      end
  end.

Definition commitBoard (sessionId : Z) (player : string) (boardHash : Bytes)
    (signer : Signer) (authTtlMinutes : option Z) : Async St string :=
  throw_if bool_decide (length boardHash ≠ 32%nat)
    then Error (tagged "commitBoard"
                  ("boardHash must be 32 bytes, got " +:+ pretty (length boardHash))) in
  let op := commit_board sessionId player boardHash in
  let! tx := invoke (Simulate op player)
               (simulate env op player (Some signer) DEFAULT_METHOD_OPTIONS) in
  let minutes := ttl authTtlMinutes (DEFAULT_AUTH_TTL_MINUTES K) in
  let! validUntilLedgerSeq :=
    invoke (LatestLedger minutes) (calculateValidUntilLedger env minutes) in
  (* the logging revision wraps the rest in [try { } catch (err) { throw err }] *)
  let! sentTx :=
    invoke (SignAndSend tx)
      (signAndSendViaLaunchtube env tx (DEFAULT_timeoutInSeconds K)
         validUntilLedgerSeq) in
  match sendTransactionResponse_hash sentTx with
  | None =>
      throw (Error (match rev with
                    | Terse => "No transaction hash from commitBoard"
                    | Verbose => "No transaction hash from submission"
                    end))
  | Some txHash => pollCommit txHash 10
  end.

Definition respondToAttack (sessionId : Z) (defender : string) (tileType : Z)
    (proofBlob : Bytes) (signer : Signer) (authTtlMinutes : option Z)
  : Async St string :=
  let rest : Async St string :=
    let op := respond_to_attack sessionId defender tileType proofBlob in
    let! tx := invoke (Simulate op defender)
                 (simulate env op defender (Some signer) ZK_METHOD_OPTIONS) in
    let minutes := ttl authTtlMinutes (DEFAULT_AUTH_TTL_MINUTES K) in
    let! validUntilLedgerSeq :=
      invoke (LatestLedger minutes) (calculateValidUntilLedger env minutes) in
    let! sentTx :=
      invoke (SignAndSend tx)
        (signAndSendViaLaunchtube env tx 120 validUntilLedgerSeq) in
    match getTransactionResponse sentTx with
    | Some response =>
        match tx_status response with
        | FAILED =>
            throw (Error ((match rev with
                           | Terse => "respondToAttack failed: "
                           | Verbose => "Transaction failed: "
                           end) +:+ extractError env response))
        | _ => resolve (result sentTx)
        end
    | None => resolve (result sentTx)
    end in
  match rev with
  | Terse =>
      throw_if bool_decide (Z.of_nat (length proofBlob) ≠ 14592)
        then Error ("Proof must be 14592 bytes, got " +:+ pretty (length proofBlob)) in
      rest
  | Verbose =>
      (* [if (proofBlob.length !== 14592) console.warn(...)], then carries on *)
      rest
  end.

End Methods.

End Service.

(** ** The merge step ([injectSignedAuthEntry] of @/utils/authEntryUtils) *)

Module AuthEntryUtils.
Import Service.

(** The validity window of an artifact: the [signatureExpirationLedger] of
    the initiator's signed entry. *)
Definition validUntil (artifact : AuthEntryXdr) : option Z :=
  match artifact with
  | Encoded entry =>
      match credentials entry with
      | WithAddress _ _ signatureExpirationLedger _ =>
          Some signatureExpirationLedger
      | SourceAccount => None
      end
  | Undecodable => None
  end.

(** Modelled from the spec: the error [HandshakeExpired] of section 4.2,
    which no source file names. *)
Definition HandshakeExpired : Exn := Error "HandshakeExpired".

(** Modelled from the spec: [injectSignedAuthEntry] of
    @/utils/authEntryUtils, which [importAndSignAuthEntry] awaits for the
    merge, is not among the sources.  Section 4.2 has of this step: "Merges
    the initiator's pre-signed authorization into the rebuilt action." and
    "Fails with [HandshakeExpired] if the artifact's validity window has
    already lapsed at merge time."; the window is "a future point after
    which the signature is worthless".  [latestLedger] reads the ledger
    sequence of the world at merge time; [merge] is what the helper does
    with an artifact whose window has not lapsed. *)
Definition injectSignedAuthEntry {World : Type} (latestLedger : World → Z)
    (merge : Tx → AuthEntryXdr → string → Signer → Z →
             World → World * Result Tx)
    (tx : Tx) (signedAuthEntryXdr : AuthEntryXdr) (signerAddress : string)
    (signer : Signer) (validUntilLedgerSeq : Z)
  : World → World * Result Tx :=
  λ w,
    match validUntil signedAuthEntryXdr with
    | Some limit =>
        if bool_decide (limit < latestLedger w)%Z
        then (w, Throw HandshakeExpired)
        else merge tx signedAuthEntryXdr signerAddress signer
               validUntilLedgerSeq w
    | None =>
        merge tx signedAuthEntryXdr signerAddress signer validUntilLedgerSeq w
    end.

(** The collaborators [env] with this merge step in the place of its own;
    what [env] had there is the merge of an artifact that has not lapsed. *)
Definition withMerge {World : Type} (latestLedger : World → Z)
    (env : Env World) : Env World :=
  {| simulate := simulate env;
     calculateValidUntilLedger := calculateValidUntilLedger env;
     wallet_signAuthEntry := wallet_signAuthEntry env;
     authorizeEntry := authorizeEntry env;
     Service.injectSignedAuthEntry :=
       injectSignedAuthEntry latestLedger (Service.injectSignedAuthEntry env);
     needsNonInvokerSigningBy := needsNonInvokerSigningBy env;
     signAuthEntries := signAuthEntries env;
     signAndSendViaLaunchtube := signAndSendViaLaunchtube env;
     getTransaction := getTransaction env;
     extractError := extractError env |}.

End AuthEntryUtils.

(** ** A sample environment

    A ledger whose dry-run of [start_game] asks for one address-based entry
    per player (Player 2's first), helpers that merge and sign what they are
    given, and a network that confirms what is submitted.  The world is the
    latest ledger sequence.  It serves to run the service on concrete
    inputs. *)

Module Sample.
Import Service.

Definition stub (address : string) (session_id points : Z) : AuthEntry :=
  {| credentials := WithAddress address 0 0 None;
     rootInvocation :=
       ContractFn "CPOISONGAME" "start_game"
         [scvU32 session_id; scvI128 0 points] |}.

Definition dryRunAuth (op : Operation) : list AuthEntry :=
  match op with
  | start_game session_id player1 player2 points1 points2 =>
      [stub player2 session_id points2; stub player1 session_id points1]
  | _ => []
  end.

Definition replaceEntry (signed : AuthEntry) (entries : list AuthEntry)
  : list AuthEntry :=
  (λ e, if bool_decide (entryAddress e = entryAddress signed)
        then signed else e) <$> entries.

Definition isUnsigned (e : AuthEntry) : bool :=
  match credentials e with
  | WithAddress _ _ _ None => true
  | _ => false
  end.

Definition signEntry (by_wallet : string) (expiration : Z) (e : AuthEntry)
  : AuthEntry :=
  match credentials e with
  | WithAddress a n _ None =>
      {| credentials := WithAddress a n expiration (Some by_wallet);
         rootInvocation := rootInvocation e |}
  | _ => e
  end.

Definition ledger : Env Z := {|
  simulate op pk _ _ w :=
    (w, Ok {| operation := op; publicKey := pk; auth := Some (dryRunAuth op) |});
  calculateValidUntilLedger minutes w := (w, Ok (w + minutes * 12));
  wallet_signAuthEntry signer _ _ w :=
    (w, Ok {| signedAuthEntry := wallet signer; sign_error := None |});
  authorizeEntry entry sign validUntil w :=
    match sign "preimage" w with
    | (w', Ok signature) =>
        (w', Ok match credentials entry with
                | WithAddress a n _ _ =>
                    {| credentials := WithAddress a n validUntil (Some signature);
                       rootInvocation := rootInvocation entry |}
                | SourceAccount => entry
                end)
    | (w', Throw e) => (w', Throw e)
    end;
  injectSignedAuthEntry tx signedXdr _ _ _ w :=
    match signedXdr with
    | Encoded signed =>
        (w, Ok {| operation := operation tx; publicKey := publicKey tx;
                  auth := replaceEntry signed <$> auth tx |})
    | Undecodable => (w, Throw (sdk "SorobanAuthorizationEntry.fromXDR"))
    end;
  needsNonInvokerSigningBy tx w :=
    (w, Ok (omap entryAddress
              (filter (λ e, isUnsigned e = true) (default [] (auth tx)))));
  signAuthEntries signer tx expiration w :=
    (w, Ok {| operation := operation tx; publicKey := publicKey tx;
              auth := (λ entries : list AuthEntry,
                         signEntry (wallet signer) expiration <$> entries)
                      <$> auth tx |});
  signAndSendViaLaunchtube tx _ _ w :=
    (w, Ok {| sendTransactionResponse_hash := Some "txhash";
              getTransactionResponse :=
                Some {| tx_status := SUCCESS; diagnostic := "" |};
              result := "ok" |});
  getTransaction _ w := (w, Ok {| tx_status := SUCCESS; diagnostic := "" |});
  extractError response := diagnostic response
|}.

Definition constants : Constants :=
  {| DEFAULT_AUTH_TTL_MINUTES := 5; MULTI_SIG_AUTH_TTL_MINUTES := 60;
     DEFAULT_timeoutInSeconds := 30 |}.

Definition walletOf (address : string) : Signer :=
  {| has_signTransaction := true; has_signAuthEntry := true;
     wallet := address |}.

(** Ledger [w], nothing called yet. *)
Definition at_ledger (w : Z) : Running Z Call := {| world := w; calls := [] |}.

(** Alice's signed entry for session 42, wager 1000000, valid until ledger
    [validUntil]. *)
Definition aliceEntry (validUntil : Z) : AuthEntry :=
  {| credentials := WithAddress "GALICE" 0 validUntil (Some "GALICE");
     rootInvocation :=
       ContractFn "CPOISONGAME" "start_game" [scvU32 42; scvI128 0 1000000] |}.

(** An artifact whose validity window ended at ledger 100. *)
Definition expiredArtifact : AuthEntryXdr := Encoded (aliceEntry 100).

(** Poison at 3 and 9, Shield at 12. *)
Definition board : Tiles := [0;0;0;1;0;0;0;0;0;1;0;0;2;0;0].

(** A proving toolkit in which every step succeeds. *)
Definition toolkit : ZkPoisonEngine.Toolkit unit unit := {|
  ZkPoisonEngine.fetch_circuit w :=
    (w, Ok {| ZkPoisonEngine.ok := true; ZkPoisonEngine.status := 200;
              ZkPoisonEngine.statusText := "OK" |});
  ZkPoisonEngine.resp_json w := (w, Ok tt);
  ZkPoisonEngine.noir_init w := (w, Ok tt);
  ZkPoisonEngine.new_UltraHonkBackend w := (w, Ok tt);
  ZkPoisonEngine.Barretenberg_new w := (w, Ok tt);
  ZkPoisonEngine.noir_execute _ w := (w, Ok tt);
  ZkPoisonEngine.backend_generateProof _ w :=
    (w, Ok {| ZkPoisonEngine.proof := [];
              ZkPoisonEngine.publicInputs := [] |})
|}.

Definition engineAtStart : ZkPoisonEngine.State unit :=
  {| ZkPoisonEngine.this := ZkPoisonEngine.fresh;
     ZkPoisonEngine.run := {| world := tt; calls := [] |} |}.

End Sample.

(** ** The rest of the proof engine (zkPoisonEngine.ts) *)

Module ZkPoisonEngineRest.
Import ZkPoisonEngine.

(** [BigInt(b)] for an element of a [Uint8Array]. *)
Definition byteValue (b : Byte.byte) : Z := Z.of_N (Byte.to_N b).

Definition saltOfBytes (bytes : Bytes) : Z :=
  foldl (λ acc b, Z.lor (Z.shiftl acc 8) (byteValue b)) 0 bytes.

(** [generateSalt]: [bytes.reduce((acc, b) => (acc << 8n) | BigInt(b), 0n)]
    over the 31 bytes [crypto.getRandomValues(new Uint8Array(31))] filled in. *)
Definition generateSalt (random31 : Bytes) : Z := saltOfBytes random31.

Section Rest.
Context {World Witness : Type}.
Variable rev : Revision.
Variable tk : Toolkit World Witness.
(** [bb.pedersenHash(inputs, 0)] with [toBuffer()] applied to the result;
    the inputs are the field elements [new Fr(BigInt(t))], [new Fr(salt)]. *)
Variable pedersenHash : list Z → World → World * Result Bytes.
(** [backend.destroy()], [bb.destroy()] *)
Variable backend_destroy : World → World * Result unit.
Variable bb_destroy : World → World * Result unit.

#[local] Abbreviation St := (State World).

(** A collaborator call that acts on the world and is not kept in the record
    of calls (the record is about fetching, initialising and proving). *)
Definition perform {A} (f : World → World * Result A) : Async St A :=
  λ s, let '(w, r) := f (world (run s)) in
       ({| this := this s;
           run := {| world := w; calls := calls (run s) |} |}, r).

Definition computeBoardHash (tiles : Tiles) (salt : Z) : Async St Bytes :=
  do! init rev tk in
  let! engine := gets this in
  throw_if negb (bb engine)
    then Error "Barretenberg not initialised" in
  throw_if bool_decide (length tiles ≠ 15%nat)
    then Error ((match rev with
                 | Terse => "Need 15 tiles, got "
                 | Verbose => "Expected 15 tiles, got "
                 end) +:+ pretty (length tiles)) in
  let inputs := (tiles ++ [salt])%list in
  perform (pedersenHash inputs).

(** [destroy]: [try { await this.backend?.destroy(); await
    this.bb?.destroy(); } catch { }], then the handles are cleared.  Only one
    of the two revisions also clears [_initializing]. *)
Definition destroy : Async St unit :=
  do! try_catch
        (let! engine := gets this in
         do! (if backend engine then perform backend_destroy else resolve tt) in
         if bb engine then perform bb_destroy else resolve tt)
        (λ _, resolve tt) in
  set (λ e, {| noir := false; backend := false; bb := false; circuit := false;
               _initialized := false;
               _initializing := match rev with
                                | Terse => None
                                | Verbose => _initializing e
                                end;
               _error := _error e |}).

End Rest.

End ZkPoisonEngineRest.

(** ** Decimal and hexadecimal text *)

Module Text.

(** [/\d/]: an ASCII digit. *)
Definition isDigit (c : Ascii.ascii) : bool :=
  (48 <=? Ascii.nat_of_ascii c)%nat && (Ascii.nat_of_ascii c <=? 57)%nat.

Definition digitValue (c : Ascii.ascii) : Z := Z.of_nat (Ascii.nat_of_ascii c) - 48.

Fixpoint allDigits (s : string) : bool :=
  match s with
  | EmptyString => true
  | String c rest => isDigit c && allDigits rest
  end.

(** The number a string of digits spells, read left to right from [acc]. *)
Fixpoint decimalFrom (acc : Z) (s : string) : Z :=
  match s with
  | EmptyString => acc
  | String c rest => decimalFrom (10 * acc + digitValue c) rest
  end.

Definition decimalValue (s : string) : Z := decimalFrom 0 s.

(** What is relied on of the built-in [BigInt(string)]: a non-empty string
    of decimal digits converts to the number it spells.  [None] stands for
    the [SyntaxError] it throws on other texts. *)
Definition reads_decimal (BigInt : string → option Z) : Prop :=
  ∀ digits, digits ≠ "" → allDigits digits = true →
            BigInt digits = Some (decimalValue digits).

(** A [BigInt] that reads decimal digits and nothing else. *)
Definition decimalBigInt (s : string) : option Z :=
  if bool_decide (s ≠ "") && allDigits s then Some (decimalValue s) else None.

(** [buffer.toString('hex')]: two lower-case digits per byte. *)
Definition hexDigit (n : N) : Ascii.ascii :=
  match n with
  | 0 => "0" | 1 => "1" | 2 => "2" | 3 => "3" | 4 => "4" | 5 => "5"
  | 6 => "6" | 7 => "7" | 8 => "8" | 9 => "9" | 10 => "a" | 11 => "b"
  | 12 => "c" | 13 => "d" | 14 => "e" | _ => "f"
  end%char%N.

Fixpoint toHex (bytes : list Byte.byte) : string :=
  match bytes with
  | [] => ""
  | b :: rest =>
      String (hexDigit (Byte.to_N b / 16))
        (String (hexDigit (Byte.to_N b mod 16)) (toHex rest))
  end.

Definition hexValue (c : Ascii.ascii) : option N :=
  let n := Ascii.N_of_ascii c in
  if (48 <=? n)%N && (n <=? 57)%N then Some (n - 48)%N
  else if (97 <=? n)%N && (n <=? 102)%N then Some (n - 87)%N
  else if (65 <=? n)%N && (n <=? 70)%N then Some (n - 55)%N
  else None.

(** [Buffer.from(text, 'hex')]: pairs of hexadecimal digits, up to the first
    pair that is not one. *)
Fixpoint fromHex (text : string) : list Byte.byte :=
  match text with
  | String hi (String lo rest) =>
      match hexValue hi, hexValue lo with
      | Some h, Some l =>
          match Byte.of_N (16 * h + l) with
          | Some b => b :: fromHex rest
          | None => []
          end
      | _, _ => []
      end
  | _ => []
  end.

End Text.

(** ** The stored board (localStorage helpers of PoisonGameGame.tsx) *)

Module BoardStore.

(** The object written as JSON: the salt in decimal, the commitment in
    hexadecimal. *)
Record StoredBoard := {
  stored_tiles : Tiles;
  stored_salt : string;
  stored_commitment : string
}.

(** What a stored text is to [JSON.parse]: the text of such an object, or
    a text it rejects. *)
Inductive Item :=
| Json (d : StoredBoard)
| Unparsable.

(** [localStorage]: its items, and whether it can be used at all (every
    access throws when it cannot). *)
Record LocalStorage := {
  items : gmap string Item;
  usable : bool
}.

(** What [loadBoard] returns. *)
Record BoardData := {
  tiles : Tiles;
  salt : Z;
  commitment : list Byte.byte
}.

(** [`poison-board-${sid}-${addr}`] *)
Definition boardKey (sid : Z) (addr : string) : string :=
  "poison-board-" +:+ pretty sid +:+ "-" +:+ addr.

(** [saveBoard]: [try { localStorage.setItem(key, JSON.stringify(...)) }
    catch { }] *)
Definition saveBoard (st : LocalStorage) (sid : Z) (addr : string)
    (tiles : Tiles) (salt : Z) (commitment : list Byte.byte) : LocalStorage :=
  if usable st
  then {| items :=
            <[boardKey sid addr :=
                Json {| stored_tiles := tiles; stored_salt := pretty salt;
                        stored_commitment := Text.toHex commitment |}]>
              (items st);
          usable := true |}
  else st.

(** [loadBoard]: [null] when the key is missing, and when anything throws. *)
Definition loadBoard (BigInt : string → option Z) (st : LocalStorage)
    (sid : Z) (addr : string) : option BoardData :=
  if usable st
  then match items st !! boardKey sid addr with
       | None => None
       | Some Unparsable => None
       | Some (Json d) =>
           match BigInt (stored_salt d) with
           | Some salt =>
               Some {| tiles := stored_tiles d; salt := salt;
                       commitment := Text.fromHex (stored_commitment d) |}
           | None => None
           end
       end
  else None.

(** [clearBoard]: [try { localStorage.removeItem(key) } catch { }] *)
Definition clearBoard (st : LocalStorage) (sid : Z) (addr : string)
  : LocalStorage :=
  if usable st
  then {| items := delete (boardKey sid addr) (items st); usable := true |}
  else st.

End BoardStore.

(** ** Wager amounts ([parsePoints] of GameLobby.tsx and PoisonGameGame.tsx) *)

Module Points.
Import Text.

Definition POINTS_DECIMALS : nat := 7.

(** [value.replace(/[^\d.]/g, '')] *)
Fixpoint keepDigitsAndDots (value : string) : string :=
  match value with
  | EmptyString => EmptyString
  | String c rest =>
      if isDigit c || Ascii.eqb c "."
      then String c (keepDigitsAndDots rest)
      else keepDigitsAndDots rest
  end.

(** [text.split('.')]; the result has at least one element. *)
Fixpoint splitDots (text : string) : list string :=
  match text with
  | EmptyString => [EmptyString]
  | String c rest =>
      if Ascii.eqb c "."
      then EmptyString :: splitDots rest
      else match splitDots rest with
           | first :: others => String c first :: others
           | [] => [String c EmptyString]
           end
  end.

Fixpoint repeatChar (n : nat) (c : Ascii.ascii) : string :=
  match n with
  | O => EmptyString
  | S n' => String c (repeatChar n' c)
  end.

(** [text.padEnd(n, c)] *)
Definition padEnd (n : nat) (c : Ascii.ascii) (text : string) : string :=
  text +:+ repeatChar (n - String.length text) c.

(** [text.slice(0, n)] *)
Fixpoint sliceTo (n : nat) (text : string) : string :=
  match n, text with
  | S n', String c rest => String c (sliceTo n' rest)
  | _, _ => EmptyString
  end.

(** The texts [value.replace(/[^\d.]/g, '')] leaves unchanged. *)
Fixpoint digitsAndDots (s : string) : bool :=
  match s with
  | EmptyString => true
  | String c rest => (isDigit c || Ascii.eqb c ".") && digitsAndDots rest
  end.

(** [parsePoints]; [const [whole = '0', fraction = ''] = cleaned.split('.')]
    takes the first two pieces, the defaults standing in for a missing one;
    a [BigInt] that throws is caught and gives [null]. *)
Definition parsePoints (BigInt : string → option Z) (value : string)
  : option Z :=
  let cleaned := keepDigitsAndDots value in
  if bool_decide (cleaned = "") || bool_decide (cleaned = ".") then None
  else
    let pieces := splitDots cleaned in
    let whole := default "0" (pieces !! 0%nat) in
    let fraction := default "" (pieces !! 1%nat) in
    let padded := sliceTo POINTS_DECIMALS (padEnd POINTS_DECIMALS "0" fraction) in
    BigInt (whole +:+ padded).

End Points.

(** ** Kinds of service calls *)

Module ServiceCalls.
Import Service.

(** The [ScVal] of an i128 amount: XDR keeps it as [Int128Parts], the
    signed high word and the unsigned low word. *)
Definition i128 (amount : Z) : ScVal :=
  scvI128 (amount / 2 ^ 64)%Z (amount mod 2 ^ 64)%Z.

(** A transaction is handed to the submission helper. *)
Definition isSubmission (c : Call) : Prop :=
  match c with SignAndSend _ => True | _ => False end.

(** The RPC server is asked for the status of a transaction. *)
Definition isPoll (c : Call) : Prop :=
  match c with GetTransaction _ => True | _ => False end.

#[global] Instance isSubmission_dec c : Decision (isSubmission c).
Proof. destruct c; simpl; apply _. Defined.

#[global] Instance isPoll_dec c : Decision (isPoll c).
Proof. destruct c; simpl; apply _. Defined.

(** [after] extends the call record of [before] by [new]. *)
Definition extends_by {World} (before after : Running World Call)
    (new : list Call) : Prop :=
  calls after = (calls before ++ new)%list.

(** What signing may change in an entry: the expiration and the signature,
    not whose entry it is nor what it authorizes. *)
Definition signs_in_place {World} (env : Env World) : Prop :=
  ∀ entry sign validUntil w w' signed,
    authorizeEntry env entry sign validUntil w = (w', Ok signed) →
    entryAddress signed = entryAddress entry
    ∧ rootInvocation signed = rootInvocation entry.

End ServiceCalls.

(** ** The board editor over a whole session (PoisonGameGame.tsx) *)

Module EditorSession.
Import BoardEditor.

(** The two pieces of component state the editor works on. *)
Record Editor := {
  myBoard : Tiles;
  activeTool : Z
}.

(** [useState(() => Array(15).fill(0))], [useState<TileType>(1)] *)
Definition initial : Editor :=
  {| myBoard := replicate 15 0; activeTool := 1 |}.

(** The buttons of the commit phase: one per tool, made by
    [([1, 2] as TileType[]).map], and one per slot, made by [myBoard.map]. *)
Inductive Gesture :=
| ToolButton (t : Z)
| TileButton (idx : nat).

Definition rendered (e : Editor) (g : Gesture) : Prop :=
  match g with
  | ToolButton t => t = 1 ∨ t = 2
  | TileButton idx => (idx < length (myBoard e))%nat
  end.

(** [setActiveTool(t)], and the [onClick] of a slot. *)
Definition press (e : Editor) (g : Gesture) : Editor :=
  match g with
  | ToolButton t => {| myBoard := myBoard e; activeTool := t |}
  | TileButton idx =>
      {| myBoard := boardAfterClick (myBoard e) (activeTool e) idx;
         activeTool := activeTool e |}
  end.

Definition presses (e : Editor) (gestures : list Gesture) : Editor :=
  foldl press e gestures.

(** Every gesture is on a button of the render it is made in. *)
Fixpoint allRendered (e : Editor) (gestures : list Gesture) : Prop :=
  match gestures with
  | [] => True
  | g :: rest => rendered e g ∧ allRendered (press e g) rest
  end.

(** What every editor state of a session satisfies. *)
Definition editorInvariant (e : Editor) : Prop :=
  length (myBoard e) = 15%nat
  ∧ withinBounds (myBoard e)
  ∧ (activeTool e = Poison ∨ activeTool e = Shield).

End EditorSession.

(** ** Committing a board ([handleCommitBoard] of PoisonGameGame.tsx) *)

Module CommitHandler.
Import BoardStore.

(** How the three calls of [handleCommitBoard] that leave the component end:
    [computeBoardHash], [getContractSigner] and the service's [commitBoard];
    the other revision also awaits [loadGameState].  None of them touches
    [localStorage]. *)
Record Remote := {
  hashed : Result (list Byte.byte);
  signer : Result unit;
  committed : Result unit;
  reloaded : Result unit
}.

Definition remote {A} (r : Result A) : Async LocalStorage A := λ st, (st, r).

(** [handleCommitBoard] as far as [localStorage] goes (the React setters
    are left out).  [random31] is what [crypto.getRandomValues] filled in
    for [generateSalt]. *)
Definition handleCommitBoard (boardValid boardCommitted : bool)
    (sid : Z) (addr : string) (myBoard : Tiles) (random31 : list Byte.byte)
    (r : Remote) : Async LocalStorage unit :=
  if negb boardValid || boardCommitted then resolve tt
  else
    try_catch
      (let salt := ZkPoisonEngineRest.generateSalt random31 in
       let! commitment := remote (hashed r) in
       do! remote (signer r) in
       do! modify (λ st, saveBoard st sid addr myBoard salt commitment) in
       remote (committed r))
      (λ _, modify (λ st, clearBoard st sid addr)).

(** The handler of the other revision: it tests [boardValid] only, reloads
    the game state after the commit, and its [catch] leaves the storage as
    it is. *)
Definition handleCommitBoardRev (boardValid : bool)
    (sid : Z) (addr : string) (myBoard : Tiles) (random31 : list Byte.byte)
    (r : Remote) : Async LocalStorage unit :=
  if negb boardValid then resolve tt
  else
    try_catch
      (let salt := ZkPoisonEngineRest.generateSalt random31 in
       let! commitment := remote (hashed r) in
       do! remote (signer r) in
       do! modify (λ st, saveBoard st sid addr myBoard salt commitment) in
       do! remote (committed r) in
       remote (reloaded r))
      (λ _, resolve tt).

End CommitHandler.

(** ** More sample collaborators *)

Module SampleMore.

(** A toolkit in which every step succeeds and the backend returns a proof
    of 14592 zero bytes. *)
Definition toolkit : ZkPoisonEngine.Toolkit unit unit := {|
  ZkPoisonEngine.fetch_circuit w :=
    (w, Ok {| ZkPoisonEngine.ok := true; ZkPoisonEngine.status := 200;
              ZkPoisonEngine.statusText := "OK" |});
  ZkPoisonEngine.resp_json w := (w, Ok tt);
  ZkPoisonEngine.noir_init w := (w, Ok tt);
  ZkPoisonEngine.new_UltraHonkBackend w := (w, Ok tt);
  ZkPoisonEngine.Barretenberg_new w := (w, Ok tt);
  ZkPoisonEngine.noir_execute _ w := (w, Ok tt);
  ZkPoisonEngine.backend_generateProof _ w :=
    (w, Ok {| ZkPoisonEngine.proof := replicate (Z.to_nat 14592) Byte.x00;
              ZkPoisonEngine.publicInputs := [] |})
|}.

(** A stand-in for the Pedersen hash: 32 zero bytes. *)
Definition pedersenHash (inputs : list Z) (w : unit)
  : unit * Result ZkPoisonEngine.Bytes :=
  (w, Ok (replicate 32 Byte.x00)).

Definition destroyed (w : unit) : unit * Result unit := (w, Ok tt).

(** A usable, empty [localStorage]. *)
Definition emptyStorage : BoardStore.LocalStorage :=
  {| BoardStore.items := ∅; BoardStore.usable := true |}.

End SampleMore.

(** * Properties *)

#[local] Open Scope Z_scope.

(** ** Boards *)

Lemma isTile_not_notATile t : isTile t ↔ ¬ notATile t.
Proof. unfold isTile, notATile. lia. Qed.

Lemma some_notATile_false tiles :
  some notATile tiles = false ↔ Forall isTile tiles.
Proof.
  unfold some. rewrite bool_decide_eq_false.
  induction tiles as [|t tiles IH].
  - split; [constructor | intros _ H; inversion H].
  - rewrite Exists_cons, Forall_cons, isTile_not_notATile. tauto.
Qed.

(** C2. [validateBoard] accepts exactly the 15-slot arrays of tile values
    with two Poison and one Shield; an array of another length, and a
    15-slot array of tile values with another distribution, is rejected with
    a message that names the count that is wrong and gives its value (the
    poison count is reported before the shield count).  A 15-slot array
    holding a number that is no tile value is rejected as such.  Both
    revisions do so; they differ in the wording of the two count messages. *)
Theorem validateBoard_accepts_iff (rev : Revision) (tiles : Tiles) :
  (valid (ZkPoisonEngineBoard.validateBoard rev tiles) = true
     ↔ length tiles = 15%nat ∧ Forall isTile tiles
       ∧ countTile Poison tiles = 2%nat ∧ countTile Shield tiles = 1%nat)
  ∧ (valid (ZkPoisonEngineBoard.validateBoard rev tiles) = true
     → ZkPoisonEngineBoard.validateBoard rev tiles = accepted)
  ∧ (length tiles ≠ 15%nat
     → ZkPoisonEngineBoard.validateBoard rev tiles
       = rejected ("Need 15 tiles, got " +:+ pretty (length tiles)))
  ∧ (length tiles = 15%nat → ¬ Forall isTile tiles
     → ZkPoisonEngineBoard.validateBoard rev tiles
       = rejected "Invalid tile values")
  ∧ (length tiles = 15%nat → Forall isTile tiles
     → countTile Poison tiles ≠ 2%nat
     → ZkPoisonEngineBoard.validateBoard rev tiles
       = rejected ((match rev with
                    | Terse => "Need exactly 2 poison tiles, got "
                    | Verbose => "Need 2 poison, got "
                    end) +:+ pretty (countTile Poison tiles)))
  ∧ (length tiles = 15%nat → Forall isTile tiles
     → countTile Poison tiles = 2%nat → countTile Shield tiles ≠ 1%nat
     → ZkPoisonEngineBoard.validateBoard rev tiles
       = rejected ((match rev with
                    | Terse => "Need exactly 1 shield tile, got "
                    | Verbose => "Need 1 shield, got "
                    end) +:+ pretty (countTile Shield tiles))).
Proof.
  unfold ZkPoisonEngineBoard.validateBoard, Poison, Shield.
  destruct (some notATile tiles) eqn:Hsome.
  - assert (¬ Forall isTile tiles) as Hbad.
    { rewrite <- some_notATile_false. congruence. }
    repeat split; repeat case_bool_decide; simpl; intros; try tauto;
      try discriminate; try reflexivity; try (destruct_and?; tauto).
  - apply some_notATile_false in Hsome.
    repeat split; repeat case_bool_decide; simpl; intros; try tauto;
      try discriminate; try reflexivity; try (destruct_and?; tauto);
      try congruence.
Qed.

Example validateBoard_sample_ok :
  ZkPoisonEngineBoard.validateBoard Terse [0;0;0;1;0;0;0;0;0;1;0;0;2;0;0]
  = accepted.
Proof. reflexivity. Qed.

Example validateBoard_sample_three_poison :
  ZkPoisonEngineBoard.validateBoard Terse [0;1;0;1;0;0;0;0;0;1;0;0;2;0;0]
  = rejected "Need exactly 2 poison tiles, got 3".
Proof. reflexivity. Qed.

Example validateBoard_sample_no_shield :
  ZkPoisonEngineBoard.validateBoard Verbose [0;1;0;1;0;0;0;0;0;0;0;0;0;0;0]
  = rejected "Need 1 shield, got 0".
Proof. reflexivity. Qed.

Example validateBoard_sample_short :
  ZkPoisonEngineBoard.validateBoard Terse [1;1;2]
  = rejected "Need 15 tiles, got 3".
Proof. reflexivity. Qed.

(** ** The board editor *)

Lemma countTile_cons v t tiles :
  countTile v (t :: tiles)
  = ((if bool_decide (t = v) then 1 else 0) + countTile v tiles)%nat.
Proof.
  unfold countTile. rewrite filter_cons.
  case_decide; case_bool_decide; simpl; congruence.
Qed.

(** Overwriting slot [i], which held [y], with [x] moves one unit of count
    from [y]'s kind to [x]'s kind. *)
Lemma countTile_insert v (tiles : Tiles) (i : nat) (x y : Z) :
  tiles !! i = Some y →
  (countTile v (<[i := x]> tiles) + (if bool_decide (y = v) then 1 else 0)
   = countTile v tiles + (if bool_decide (x = v) then 1 else 0))%nat.
Proof.
  revert i. induction tiles as [|t tiles IH]; intros i Hi; [done|].
  destruct i as [|i]; simpl in *.
  - injection Hi as ->. rewrite !countTile_cons. lia.
  - rewrite !countTile_cons. specialize (IH i Hi). lia.
Qed.

Lemma isTile_Normal : isTile Normal.
Proof. left. reflexivity. Qed.

Section BoardEditorFacts.
Import BoardEditor.

Lemma onClick_toggle_off myBoard activeTool idx :
  myBoard !! idx = Some activeTool →
  onClick myBoard activeTool idx = Some (<[idx := Normal]> myBoard).
Proof. intros H. unfold onClick. rewrite bool_decide_eq_true_2; done. Qed.

Lemma onClick_poison_full myBoard idx :
  myBoard !! idx ≠ Some Poison → (2 ≤ countTile Poison myBoard)%nat →
  onClick myBoard Poison idx = None.
Proof.
  intros Hne Hfull. unfold onClick, Poison in *.
  rewrite bool_decide_eq_false_2 by done.
  rewrite bool_decide_eq_true_2; done.
Qed.

Lemma onClick_shield_full myBoard idx :
  myBoard !! idx ≠ Some Shield → (1 ≤ countTile Shield myBoard)%nat →
  onClick myBoard Shield idx = None.
Proof.
  intros Hne Hfull. unfold onClick, Shield in *.
  rewrite bool_decide_eq_false_2 by done.
  rewrite bool_decide_eq_false_2 by (intros (? & _); done).
  rewrite bool_decide_eq_true_2; done.
Qed.

(** The second test of each bound check never decides anything: in the
    [else] branch the slot differs from the active tool already.  So the two
    revisions of the handler agree on an uncommitted board. *)
Lemma onClick_revisions_agree myBoard activeTool idx :
  onClickRev false myBoard activeTool idx = onClick myBoard activeTool idx.
Proof.
  unfold onClickRev, onClick.
  repeat case_bool_decide; try reflexivity; destruct_and?; subst;
    try tauto; exfalso; naive_solver.
Qed.

Lemma withinBounds_after_set (myBoard : Tiles) (idx : nat) (x y : Z) :
  withinBounds myBoard → isTile x → myBoard !! idx = Some y →
  (x = Poison → y ≠ Poison → countTile Poison myBoard < 2)%nat →
  (x = Shield → y ≠ Shield → countTile Shield myBoard < 1)%nat →
  withinBounds (<[idx := x]> myBoard).
Proof.
  unfold Poison, Shield.
  intros (Hall & Hp & Hs) Hx Hy HP HS. split; [|split].
  - apply Forall_insert; assumption.
  - pose proof (countTile_insert 1 myBoard idx x y Hy) as E.
    repeat case_bool_decide; subst; try lia;
      try (specialize (HP eq_refl); lia).
  - pose proof (countTile_insert 2 myBoard idx x y Hy) as E.
    repeat case_bool_decide; subst; try lia;
      try (specialize (HS eq_refl); lia).
Qed.

End BoardEditorFacts.

(** C10. A click in the board editor keeps the placement bounds: from a
    board of tile values with at most two Poison and at most one Shield,
    clicking any slot with any tool gives again such a board.  Clicking a
    slot that holds the active tool clears it to Normal; a click that would
    put a third Poison or a second Shield returns without updating the
    board. *)
Theorem board_click_preserves_bounds
    (myBoard : Tiles) (activeTool : Z) (idx : nat) :
  BoardEditor.withinBounds myBoard →
  isTile activeTool →
  (idx < length myBoard)%nat →
  BoardEditor.withinBounds (BoardEditor.boardAfterClick myBoard activeTool idx)
  ∧ (myBoard !! idx = Some activeTool →
     BoardEditor.boardAfterClick myBoard activeTool idx
     = <[idx := Normal]> myBoard)
  ∧ (activeTool = Poison → myBoard !! idx ≠ Some Poison →
     countTile Poison myBoard = 2%nat →
     BoardEditor.onClick myBoard activeTool idx = None
     ∧ BoardEditor.boardAfterClick myBoard activeTool idx = myBoard)
  ∧ (activeTool = Shield → myBoard !! idx ≠ Some Shield →
     countTile Shield myBoard = 1%nat →
     BoardEditor.onClick myBoard activeTool idx = None
     ∧ BoardEditor.boardAfterClick myBoard activeTool idx = myBoard).
Proof.
  intros Hb Htool Hidx.
  destruct (lookup_lt_is_Some_2 myBoard idx Hidx) as [y Hy].
  split; [|split; [|split]].
  - unfold BoardEditor.boardAfterClick, BoardEditor.onClick.
    repeat case_bool_decide; simpl; try assumption.
    + apply (withinBounds_after_set myBoard idx Normal y);
        auto using isTile_Normal; unfold Normal, Poison, Shield; lia.
    + apply (withinBounds_after_set myBoard idx activeTool y); auto.
      * intros -> Hne. unfold Poison in *.
        destruct (decide (2 ≤ countTile 1 myBoard)%nat); [|lia].
        exfalso. naive_solver.
      * intros -> Hne. unfold Shield in *.
        destruct (decide (1 ≤ countTile 2 myBoard)%nat); [|lia].
        exfalso. naive_solver.
  - intros H. unfold BoardEditor.boardAfterClick.
    rewrite onClick_toggle_off by assumption. reflexivity.
  - intros -> Hne Hfull. unfold BoardEditor.boardAfterClick.
    rewrite onClick_poison_full by (auto; lia). done.
  - intros -> Hne Hfull. unfold BoardEditor.boardAfterClick.
    rewrite onClick_shield_full by (auto; lia). done.
Qed.

Lemma board_click_preserves_bounds_witness :
  BoardEditor.withinBounds [0;1;0;1;2]
  ∧ BoardEditor.boardAfterClick [0;1;0;1;2] Poison 0 = [0;1;0;1;2]
  ∧ BoardEditor.boardAfterClick [0;1;0;1;2] Poison 1 = [0;0;0;1;2]
  ∧ BoardEditor.withinBounds (BoardEditor.boardAfterClick [0;1;0;1;2] Shield 0).
Proof.
  assert (BoardEditor.withinBounds [0;1;0;1;2]) as Hb.
  { unfold BoardEditor.withinBounds, isTile.
    split; [repeat constructor; lia | vm_compute; lia]. }
  assert (isTile Shield) as Hs by (right; right; reflexivity).
  split; [exact Hb|].
  split; [reflexivity|]. split; [reflexivity|].
  exact (proj1 (board_click_preserves_bounds [0;1;0;1;2] Shield 0 Hb Hs
                  ltac:(simpl; lia))).
Defined.

(** ** Turn derivation *)

Section TurnFacts.
Import Turn.

Lemma isMyAttackTurn_iff gs me :
  me ≠ 0 →
  isMyAttackTurn (Some gs) me = true
  ↔ has_pending_attack gs = false ∧ current_turn gs = me.
Proof.
  intros Hme. unfold isMyAttackTurn. simpl.
  rewrite !andb_true_iff, !bool_decide_eq_true, negb_true_iff.
  split; [intros [[_ ?] [= ?]]; auto | intros [? ->]; auto].
Qed.

Lemma isMyDefenseTurn_iff gs me :
  me ≠ 0 →
  isMyDefenseTurn (Some gs) me = true
  ↔ has_pending_attack gs = true ∧ current_turn gs ≠ me.
Proof.
  intros Hme. unfold isMyDefenseTurn. simpl.
  rewrite !andb_true_iff, !bool_decide_eq_true.
  split.
  - intros [[_ [= ?]] Hne]. split; [assumption | congruence].
  - intros [-> Hne]. repeat split; [assumption | congruence].
Qed.

(** Before the first poll there is no game state: nothing but the waiting
    block is shown. *)
Lemma playPanels_without_state me :
  me = 1 ∨ me = 2 → playPanels None me = [waiting_state].
Proof. intros [-> | ->]; reflexivity. Qed.

End TurnFacts.

(** C7. For a player number 1 or 2 and any game state, the play phase shows
    the attack block exactly when no attack is pending and the turn is the
    player's, the defense block exactly when an attack is pending and the
    turn is not the player's, and the waiting block in every other case;
    exactly one of the three is shown. *)
Theorem play_substate_by_turn (gameState : Turn.GameState) (me : Z) :
  me = 1 ∨ me = 2 →
  let pending := Turn.has_pending_attack gameState in
  let turn := Turn.current_turn gameState in
  (Turn.isMyAttackTurn (Some gameState) me = true
     ↔ pending = false ∧ turn = me)
  ∧ (Turn.isMyDefenseTurn (Some gameState) me = true
     ↔ pending = true ∧ turn ≠ me)
  ∧ (Turn.playPanels (Some gameState) me = [Turn.attack_section]
     ↔ pending = false ∧ turn = me)
  ∧ (Turn.playPanels (Some gameState) me = [Turn.defense_section]
     ↔ pending = true ∧ turn ≠ me)
  ∧ (Turn.playPanels (Some gameState) me = [Turn.waiting_state]
     ↔ ¬ (pending = false ∧ turn = me) ∧ ¬ (pending = true ∧ turn ≠ me)).
Proof.
  intros Hme pending turn.
  assert (me ≠ 0) as Hne by lia.
  pose proof (isMyAttackTurn_iff gameState me Hne) as HA.
  pose proof (isMyDefenseTurn_iff gameState me Hne) as HD.
  fold pending turn in HA, HD.
  split; [exact HA|]. split; [exact HD|].
  unfold Turn.playPanels.
  destruct (Turn.isMyAttackTurn (Some gameState) me) eqn:EA;
    destruct (Turn.isMyDefenseTurn (Some gameState) me) eqn:ED; simpl;
    destruct HA as [HA1 HA2], HD as [HD1 HD2].
  - (* both cannot hold *)
    exfalso. destruct (HA1 eq_refl) as [? _], (HD1 eq_refl) as [? _].
    congruence.
  - pose proof (HA1 eq_refl).
    repeat split; intros; try discriminate; try tauto.
  - pose proof (HD1 eq_refl).
    repeat split; intros; try discriminate; try tauto.
  - assert (¬ (pending = false ∧ turn = me)) by (intros Hc; apply HA2 in Hc; discriminate).
    assert (¬ (pending = true ∧ turn ≠ me)) by (intros Hc; apply HD2 in Hc; discriminate).
    repeat split; intros; try discriminate; try tauto.
Qed.

Lemma play_substate_by_turn_witness :
  Turn.playPanels
    (Some {| Turn.current_turn := 1; Turn.has_pending_attack := true;
             Turn.pending_attack_tile := 4; Turn.winner := 0 |}) 2
  = [Turn.defense_section].
Proof.
  apply (play_substate_by_turn
           {| Turn.current_turn := 1; Turn.has_pending_attack := true;
              Turn.pending_attack_tile := 4; Turn.winner := 0 |} 2).
  - right. reflexivity.
  - simpl. split; [reflexivity | lia].
Defined.

(** ** Session ids *)

Section SessionIdFacts.
Import SessionId.

Lemma Uint32_range n : 0 ≤ Uint32 n ≤ 2 ^ 32 - 1.
Proof. unfold Uint32. pose proof (Z.mod_pos_bound n (2 ^ 32)). lia. Qed.

Lemma Uint32_small n : 0 ≤ n < 2 ^ 32 → Uint32 n = n.
Proof. intros H. unfold Uint32. apply Z.mod_small. lia. Qed.

(** The product is rounded before it is floored: for [r = 2^32 + 1] the
    exact product with [0xffffffff] is [2^11 - 2^-53], which is no double. *)
Example floor_random_times_rounds_up :
  floor_random_times (over_2_53 (2 ^ 32 + 1)) 0xffffffff = 2048
  ∧ (2 ^ 32 + 1) * 0xffffffff / 2 ^ 53 = 2047
  ∧ floor_random_times (over_2_53 (2 ^ 33 + 2)) 0xffffffff = 4096.
Proof. vm_compute. auto. Qed.

Lemma nearestEven_bounds n s :
  0 ≤ n → 0 < s →
  0 ≤ nearestEven n s ∧ nearestEven n s * 2 ^ s ≤ n + 2 ^ (s - 1).
Proof.
  intros Hn Hs. unfold nearestEven.
  assert (2 ^ s = 2 * 2 ^ (s - 1)) as Hpow.
  { replace s with (1 + (s - 1)) at 1 by lia. rewrite Z.pow_add_r by lia. reflexivity. }
  assert (0 < 2 ^ (s - 1)) as Hhalf by (apply Z.pow_pos_nonneg; lia).
  pose proof (Z.div_mod n (2 ^ s) ltac:(lia)) as Hdm.
  pose proof (Z.mod_pos_bound n (2 ^ s) ltac:(lia)) as Hmod.
  assert (0 ≤ n / 2 ^ s) as Hq by (apply Z.div_pos; lia).
  case_bool_decide as Hup; split; nia.
Qed.

Lemma floor_random_times_range x c :
  double_in_unit_interval x → 0 < c →
  0 ≤ floor_random_times x c ≤ c - 1.
Proof.
  intros (Hm & Hk & Hlt) Hc.
  unfold floor_random_times, roundToDouble, Math_floor.
  set (m := mantissa x) in *. set (k := scale x) in *.
  set (n := m * c).
  assert (0 ≤ n) as Hn by (unfold n; nia).
  assert (0 < 2 ^ k) as Hpk by (apply Z.pow_pos_nonneg; lia).
  assert (n < 2 ^ k * c) as Hnc by (unfold n; nia).
  set (e := Z.max (Z.log2 n - k - 52) (-1074)).
  destruct (decide (0 < k + e)) as [Hs|Hs];
    [rewrite (bool_decide_eq_true_2 _ Hs) | rewrite (bool_decide_eq_false_2 _ Hs)];
    cbn [fst snd].
  - (* the product has more than 53 bits and is rounded *)
    assert (0 < n) as Hpos.
    { destruct (Z.eq_dec n 0) as [E|]; [|lia].
      exfalso. subst e. rewrite E in Hs. change (Z.log2 0) with 0 in Hs. lia. }
    assert (e = Z.log2 n - k - 52) as He by (subst e; lia).
    set (s := k + e) in *.
    destruct (nearestEven_bounds n s Hn Hs) as [Hq0 Hq].
    set (q := nearestEven n s) in *.
    pose proof (Z.log2_spec n Hpos) as [HL _].
    assert (Z.log2 n = (s - 1) + 53) as HLs by lia.
    rewrite HLs, Z.pow_add_r in HL by lia.
    assert (0 < 2 ^ (s - 1)) as Hhalf by (apply Z.pow_pos_nonneg; lia).
    assert (m * 2 ^ 53 ≤ (2 ^ 53 - 1) * 2 ^ k) as Hx.
    { destruct (Z.le_gt_cases k 53) as [Hle|Hgt].
      - assert (2 ^ 53 = 2 ^ k * 2 ^ (53 - k)) as E
          by (rewrite <- Z.pow_add_r by lia; f_equal; lia).
        assert (0 < 2 ^ (53 - k)) by (apply Z.pow_pos_nonneg; lia).
        rewrite E. nia.
      - assert (2 ^ k = 2 ^ 53 * 2 ^ (k - 53)) as E
          by (rewrite <- Z.pow_add_r by lia; f_equal; lia).
        assert (2 ≤ 2 ^ (k - 53)).
        { change 2 with (2 ^ 1) at 1. apply Z.pow_le_mono_r; lia. }
        rewrite E. nia. }
    assert (q * 2 ^ s < c * 2 ^ k) as Hbound.
    { assert (q * 2 ^ s * 2 ^ 53 < c * 2 ^ k * 2 ^ 53); [|nia].
      assert (n * 2 ^ 53 ≤ c * ((2 ^ 53 - 1) * 2 ^ k)) by (unfold n; nia).
      nia. }
    case_bool_decide as Hsign.
    + assert (2 ^ s = 2 ^ k * 2 ^ e) as E
        by (unfold s; rewrite Z.pow_add_r by lia; reflexivity).
      assert (0 < 2 ^ e) by (apply Z.pow_pos_nonneg; lia).
      rewrite E in Hbound. nia.
    + assert (2 ^ k = 2 ^ s * 2 ^ (- e)) as E
        by (rewrite <- Z.pow_add_r by lia; f_equal; lia).
      assert (0 < 2 ^ (- e)) by (apply Z.pow_pos_nonneg; lia).
      assert (0 < 2 ^ s) by (apply Z.pow_pos_nonneg; lia).
      split; [apply Z.div_pos; lia|].
      assert (q / 2 ^ (- e) < c); [|lia].
      apply Z.div_lt_upper_bound; [lia|]. rewrite E in Hbound. nia.
  - (* the product is a double already *)
    assert (k + e ≤ 0) as Hs' by lia.
    assert (0 < 2 ^ (- (k + e))) by (apply Z.pow_pos_nonneg; lia).
    case_bool_decide as Hsign.
    + assert (k = 0 ∧ e = 0) as [Hk0 He0] by lia.
      rewrite Hk0 in *. rewrite He0. simpl in *. lia.
    + assert (2 ^ (- e) = 2 ^ (- (k + e)) * 2 ^ k) as E
        by (rewrite <- Z.pow_add_r by lia; f_equal; lia).
      rewrite E, Z.mul_comm, Z.div_mul_cancel_l by lia.
      split; [apply Z.div_pos; lia|].
      assert (n / 2 ^ k < c); [|lia].
      apply Z.div_lt_upper_bound; lia.
Qed.

(** The loop only ever returns a non-zero word. *)
Lemma drawUntilNonZero_range draw calls fuel v :
  drawUntilNonZero draw calls fuel = Some v → 1 ≤ v ≤ 2 ^ 32 - 1.
Proof.
  revert calls. induction fuel as [|fuel IH]; intros calls; simpl; [done|].
  case_bool_decide as Hz.
  - apply IH.
  - intros [= <-]. pose proof (Uint32_range (draw calls)). lia.
Qed.

(** The loop returns the first non-zero word, as soon as the fuel reaches it. *)
Lemma drawUntilNonZero_first draw calls n fuel :
  (∀ i, (i < n)%nat → Uint32 (draw (calls + i)%nat) = 0) →
  Uint32 (draw (calls + n)%nat) ≠ 0 →
  (n < fuel)%nat →
  drawUntilNonZero draw calls fuel = Some (Uint32 (draw (calls + n)%nat)).
Proof.
  revert calls fuel. induction n as [|n IH]; intros calls fuel Hzero Hnz Hfuel;
    (destruct fuel as [|fuel]; [lia|]); simpl.
  - rewrite Nat.add_0_r in *. rewrite bool_decide_eq_false_2; done.
  - rewrite bool_decide_eq_true_2.
    2:{ specialize (Hzero 0%nat). rewrite Nat.add_0_r in Hzero. apply Hzero. lia. }
    replace (calls + S n)%nat with (S calls + n)%nat in * by lia.
    apply IH; [|assumption|lia].
    intros i Hi. specialize (Hzero (S i)).
    replace (calls + S i)%nat with (S calls + i)%nat in Hzero by lia.
    apply Hzero. lia.
Qed.

Lemma fallback_value rnd fuel :
  crypto_available rnd = false →
  double_in_unit_interval (Math_random rnd) →
  ∃ v, createRandomSessionId rnd fuel = Some v ∧ 1 ≤ v ≤ 2 ^ 32 - 2.
Proof.
  intros Hc Hr. unfold createRandomSessionId. rewrite Hc.
  pose proof (floor_random_times_range (Math_random rnd) 0xffffffff Hr) as Hf.
  rewrite Uint32_small by lia.
  eexists; split; [reflexivity|].
  case_bool_decide; lia.
Qed.

(** The inline draw of the other lobby: [Math.random()] can return [0], and
    the id is then [0]. *)
Lemma handleCreateGame_sessionId_can_be_zero :
  handleCreateGame_sessionId (without_crypto (over_2_53 0)) = 0.
Proof. reflexivity. Qed.

End SessionIdFacts.

(** C8, as the code has it.  [createRandomSessionId] returns a non-zero
    32-bit value: whatever it returns lies in [1, 2^32 - 1]; with
    [crypto.getRandomValues] it returns the first non-zero draw, as soon as
    there is one, and every value of [1, 2^32 - 1] can be returned; on the
    [Math.random] fallback it always returns, with a value in
    [1, 2^32 - 2].  The lobby that draws the id inline gets a value below
    [10^9]. *)
Theorem createRandomSessionId_nonzero_uint32 (rnd : SessionId.Randomness) :
  SessionId.double_in_unit_interval (SessionId.Math_random rnd) →
  (∀ fuel v, SessionId.createRandomSessionId rnd fuel = Some v →
             1 ≤ v ≤ 2 ^ 32 - 1)
  ∧ (SessionId.crypto_available rnd = true →
     ∀ n fuel,
       (∀ i, (i < n)%nat →
             SessionId.Uint32 (SessionId.getRandomValues rnd i) = 0) →
       SessionId.Uint32 (SessionId.getRandomValues rnd n) ≠ 0 →
       (n < fuel)%nat →
       SessionId.createRandomSessionId rnd fuel
       = Some (SessionId.Uint32 (SessionId.getRandomValues rnd n)))
  ∧ (∀ v, 1 ≤ v ≤ 2 ^ 32 - 1 →
          SessionId.createRandomSessionId (SessionId.with_crypto (λ _, v)) 1 = Some v)
  ∧ (SessionId.crypto_available rnd = false →
     ∀ fuel, ∃ v, SessionId.createRandomSessionId rnd fuel = Some v
                  ∧ 1 ≤ v ≤ 2 ^ 32 - 2)
  ∧ SessionId.handleCreateGame_sessionId rnd < 10 ^ 9.
Proof.
  intros Hr. split; [|split; [|split; [|split]]].
  - intros fuel v. unfold SessionId.createRandomSessionId.
    destruct (SessionId.crypto_available rnd) eqn:Hc.
    + apply drawUntilNonZero_range.
    + intros H.
      destruct (fallback_value rnd fuel Hc Hr) as (v' & Hv' & Hrange).
      unfold SessionId.createRandomSessionId in Hv'. rewrite Hc in Hv'.
      rewrite Hv' in H. injection H as <-. lia.
  - intros Hc n fuel Hzero Hn Hfuel.
    unfold SessionId.createRandomSessionId. rewrite Hc.
    apply (drawUntilNonZero_first (SessionId.getRandomValues rnd) 0 n fuel);
      assumption.
  - intros v Hv. unfold SessionId.createRandomSessionId. simpl.
    rewrite Uint32_small by lia.
    rewrite bool_decide_eq_false_2 by lia. reflexivity.
  - intros Hc fuel. apply fallback_value; assumption.
  - unfold SessionId.handleCreateGame_sessionId.
    pose proof (floor_random_times_range (SessionId.Math_random rnd)
                  1000000000 Hr). lia.
Qed.

Lemma createRandomSessionId_nonzero_uint32_witness :
  ∃ v, SessionId.createRandomSessionId
         (SessionId.with_crypto (λ n, if bool_decide (n = 2%nat) then 77 else 0)) 5
       = Some v ∧ 1 ≤ v ≤ 2 ^ 32 - 1.
Proof.
  exists 77. split; [reflexivity|].
  refine (proj1 (createRandomSessionId_nonzero_uint32
                   (SessionId.with_crypto (λ n, if bool_decide (n = 2%nat) then 77 else 0))
                   _) 5%nat 77 eq_refl).
  unfold SessionId.double_in_unit_interval; simpl; lia.
Defined.

(** C8 as stated fails on the code: the ids are not drawn from the whole of
    [1, 2^32 - 1].  Without [crypto], [createRandomSessionId] never returns
    [2^32 - 1] (its largest value, reached at the largest double below 1, is
    [2^32 - 2]); the inline draw of the other lobby never returns it either. *)
Lemma session_id_misses_top_of_range :
  (¬ ∃ x fuel, SessionId.double_in_unit_interval x
               ∧ SessionId.createRandomSessionId (SessionId.without_crypto x) fuel
                 = Some (2 ^ 32 - 1))
  ∧ SessionId.createRandomSessionId
      (SessionId.without_crypto SessionId.largest_below_one) 0
    = Some (2 ^ 32 - 2)
  ∧ (¬ ∃ x, SessionId.double_in_unit_interval x
            ∧ SessionId.handleCreateGame_sessionId (SessionId.without_crypto x)
              = 2 ^ 32 - 1).
Proof.
  split; [|split].
  - intros (r & fuel & Hr & H).
    destruct (fallback_value (SessionId.without_crypto r) fuel eq_refl Hr)
      as (v & Hv & Hrange).
    rewrite Hv in H. injection H as ->. lia.
  - vm_compute. reflexivity.
  - intros (r & Hr & H).
    pose proof (floor_random_times_range r 1000000000 Hr) as Hf.
    unfold SessionId.handleCreateGame_sessionId in H. simpl in H. lia.
Qed.

(** ** The action lock *)

Section ActionLockFacts.
Import ActionLock.
Context {Action : Type} `{EqDecision Action}.

Lemma runAction_enter_free (st : Runner Action) (action : Action) :
  actionLock st = false →
  runAction_enter st false action
  = ({| actionLock := true; entered := entered st ++ [action];
        pending := action :: pending st |}, Awaiting).
Proof. intros H. unfold runAction_enter. rewrite H. reflexivity. Qed.

End ActionLockFacts.

(** C9. A call of [runAction] made while the lock is held, or while the
    component is busy, returns at once: the state is untouched (its action
    is neither entered nor kept for later) and nothing is thrown.  When an
    entered action settles, fulfilled or rejected, the lock is released and
    [runAction] settles the same way. *)
Theorem runAction_guard_and_release {Action : Type} `{EqDecision Action}
    (st : ActionLock.Runner Action) (isBusy : bool) (action : Action) :
  ActionLock.actionLock st = true ∨ isBusy = true →
  ActionLock.runAction_enter st isBusy action = (st, ActionLock.ReturnedAtOnce)
  ∧ (∀ (st' : ActionLock.Runner Action) (first : Action)
       (how : ActionLock.Settled),
       ActionLock.actionLock (ActionLock.runAction_resume st' first how).1 = false
       ∧ (ActionLock.runAction_resume st' first how).2 = how
       ∧ ActionLock.entered (ActionLock.runAction_resume st' first how).1
         = ActionLock.entered st').
Proof.
  intros Hheld. split.
  - unfold ActionLock.runAction_enter.
    destruct Hheld as [-> | ->]; [reflexivity|].
    rewrite orb_true_r. reflexivity.
  - intros st' first how. repeat split.
Qed.

Lemma runAction_guard_and_release_witness :
  let held := (ActionLock.runAction_enter ActionLock.idle false "attack").1 in
  ActionLock.actionLock held = true
  ∧ ActionLock.runAction_enter held false "respond"
    = (held, ActionLock.ReturnedAtOnce)
  ∧ ActionLock.actionLock
      (ActionLock.runAction_resume held "attack"
         (ActionLock.Rejected "Attack failed")).1 = false.
Proof.
  intros held. split; [reflexivity|].
  pose proof (runAction_guard_and_release held false "respond"
                (or_introl eq_refl)) as [Henter Hrelease].
  split; [exact Henter|].
  exact (proj1 (Hrelease held "attack" (ActionLock.Rejected "Attack failed"))).
Defined.

(** ** The proof engine *)

Section EngineFacts.
Import ZkPoisonEngine.
Context {World Witness : Type}.
Variable rev : Revision.
Variable tk : Toolkit World Witness.

Lemma no_proving_since_refl (s : State World) : no_proving_since s s.
Proof. exists []. split; [symmetry; apply app_nil_r | constructor]. Qed.

Ltac close_calls :=
  unfold no_proving_since; simpl; rewrite <- ?app_assoc; simpl;
  eexists; split; [reflexivity | repeat constructor; simpl; tauto].

Lemma doInit_no_proving s : no_proving_since s (_doInit rev tk s).1.
Proof.
  unfold _doInit, try_catch, await, call, invoke, set, modify, throw. simpl.
  destruct (fetch_circuit tk (world (run s))) as [w1 [resp|e]]; simpl;
    [|close_calls].
  destruct (ok resp); simpl; [|close_calls].
  destruct (resp_json tk w1) as [w2 [[]|e]]; simpl; [|close_calls].
  destruct (noir_init tk w2) as [w3 [[]|e]]; simpl; [|close_calls].
  destruct (new_UltraHonkBackend tk w3) as [w4 [[]|e]]; simpl; [|close_calls].
  destruct (Barretenberg_new tk w4) as [w5 [[]|e]]; simpl; close_calls.
Qed.

Lemma init_no_proving s : no_proving_since s (init rev tk s).1.
Proof.
  unfold init.
  destruct (_initialized (this s)); [apply no_proving_since_refl|].
  destruct (_initializing (this s)); [apply no_proving_since_refl|].
  pose proof (doInit_no_proving s) as H.
  destruct (_doInit rev tk s) as [s' r]. exact H.
Qed.

End EngineFacts.

(** C3. Whatever state the engine is in and however its collaborators
    answer, when the tile array does not have 15 slots, or the index is
    outside 0..14, or the slot at the index is not the claimed type,
    [generateTileProof] throws, and between the call and the throw neither a
    witness nor a proof is asked for. *)
Theorem generateTileProof_rejects_locally {World Witness : Type}
    (rev : Revision) (tk : ZkPoisonEngine.Toolkit World Witness)
    (s : ZkPoisonEngine.State World)
    (tiles : Tiles) (salt : Z) (commitment : ZkPoisonEngine.Bytes)
    (tileIndex tileType : Z) :
  length tiles ≠ 15%nat ∨ tileIndex < 0 ∨ tileIndex > 14
  ∨ ZkPoisonEngine.at_index tiles tileIndex ≠ Some tileType →
  let out := ZkPoisonEngine.generateTileProof rev tk tiles salt commitment
               tileIndex tileType s in
  (∃ e, out.2 = Throw e) ∧ ZkPoisonEngine.no_proving_since s out.1.
Proof.
  intros Hbad out. subst out.
  pose proof (init_no_proving rev tk s) as Hinit.
  cbv beta delta [ZkPoisonEngine.generateTileProof await gets throw].
  destruct (ZkPoisonEngine.init rev tk s) as [s1 [[]|e]]; simpl in *;
    [|split; [eauto | exact Hinit]].
  destruct (negb (ZkPoisonEngine.noir (ZkPoisonEngine.this s1))
            || negb (ZkPoisonEngine.backend (ZkPoisonEngine.this s1)));
    simpl; [split; [eauto | exact Hinit]|].
  destruct (bool_decide (length tiles ≠ 15%nat)) eqn:Hlen;
    simpl; [split; [eauto | exact Hinit]|].
  destruct (bool_decide (tileIndex < 0)) eqn:Hlow;
    simpl; [split; [eauto | exact Hinit]|].
  destruct (bool_decide (tileIndex > 14)) eqn:Hhigh;
    simpl; [split; [eauto | exact Hinit]|].
  destruct (bool_decide (ZkPoisonEngine.at_index tiles tileIndex ≠ Some tileType))
    eqn:Hat; simpl; [split; [eauto | exact Hinit]|].
  exfalso.
  apply bool_decide_eq_false in Hlen, Hlow, Hhigh, Hat.
  destruct Hbad as [?|[?|[?|?]]]; tauto.
Qed.

Lemma generateTileProof_rejects_locally_witness :
  (ZkPoisonEngine.generateTileProof Terse Sample.toolkit Sample.board 5 []
     3 Normal Sample.engineAtStart).2
  = Throw (Error "Tile type mismatch — check board data")
  ∧ ZkPoisonEngine.no_proving_since Sample.engineAtStart
      (ZkPoisonEngine.generateTileProof Terse Sample.toolkit Sample.board 5 []
         3 Normal Sample.engineAtStart).1.
Proof.
  split; [reflexivity|].
  apply (generateTileProof_rejects_locally Terse Sample.toolkit
           Sample.engineAtStart Sample.board 5 [] 3 Normal).
  right. right. right. simpl. discriminate.
Defined.

(** ** The handshake *)

Section HandshakeFacts.
Import Service.

Lemma findPlayer1AuthEntry_Some authEntries player1 entry :
  findPlayer1AuthEntry authEntries player1 = Some entry →
  entry ∈ authEntries ∧ entryAddress entry = Some player1.
Proof.
  induction authEntries as [|e rest IH]; simpl; [discriminate|].
  unfold entryAddress.
  destruct (credentials e) as [|addr n v sg] eqn:Hc.
  - intros H. destruct (IH H). split; [right|]; assumption.
  - case_bool_decide as Ha.
    + intros [= <-]. split; [left|]. unfold entryAddress. rewrite Hc. congruence.
    + intros H. destruct (IH H). split; [right|]; assumption.
Qed.

Lemma findPlayer1AuthEntry_None authEntries player1 :
  findPlayer1AuthEntry authEntries player1 = None
  ↔ Forall (λ e, entryAddress e ≠ Some player1) authEntries.
Proof.
  induction authEntries as [|e rest IH]; simpl.
  - split; [constructor | reflexivity].
  - rewrite Forall_cons. unfold entryAddress at 1.
    destruct (credentials e) as [|addr n v sg].
    + rewrite IH. intuition discriminate.
    + case_bool_decide as Ha.
      * subst. split; [discriminate | intros [H _]; congruence].
      * rewrite IH. intuition congruence.
Qed.

Lemma findPlayer1AuthEntry_is_Some authEntries player1 :
  (∃ entry, entry ∈ authEntries ∧ entryAddress entry = Some player1) →
  is_Some (findPlayer1AuthEntry authEntries player1).
Proof.
  intros (entry & Hin & Ha).
  destruct (findPlayer1AuthEntry authEntries player1) eqn:E; [eauto|].
  apply findPlayer1AuthEntry_None in E.
  rewrite Forall_forall in E. destruct (E entry Hin Ha).
Qed.

(** The choice does not depend on the order of the entries. *)
Lemma findPlayer1AuthEntry_order authEntries reordered player1 :
  reordered ≡ₚ authEntries →
  attributable_once authEntries player1 →
  findPlayer1AuthEntry reordered player1
  = findPlayer1AuthEntry authEntries player1.
Proof.
  intros Hperm Honce.
  destruct (findPlayer1AuthEntry authEntries player1) as [e|] eqn:E.
  - apply findPlayer1AuthEntry_Some in E as [Hin Ha].
    destruct (findPlayer1AuthEntry_is_Some reordered player1) as [e' E'].
    { exists e. split; [rewrite Hperm|]; assumption. }
    rewrite E'. apply findPlayer1AuthEntry_Some in E' as [Hin' Ha'].
    f_equal. apply Honce; try assumption. rewrite <- Hperm. assumption.
  - apply findPlayer1AuthEntry_None. apply findPlayer1AuthEntry_None in E.
    rewrite Hperm. assumption.
Qed.

End HandshakeFacts.

(** C5. [prepareStartGame] picks Player 1's entry among the dry-run's
    entries by comparing credential addresses: the entry picked is in the
    list and carries Player 1's address; an entry with that address is found
    wherever it stands, and when it is the only one the pick is the same for
    every ordering of the list; it is the picked entry that is handed to
    [authorizeEntry]; and when no entry carries Player 1's address the call
    throws "No auth entry found for Player 1 (...)" right after the dry-run. *)
Theorem prepareStartGame_picks_by_address {World : Type}
    (rev : Revision) (K : Service.Constants) (env : Service.Env World)
    (sessionId : Z) (player1 player2 : string) (player1Points player2Points : Z)
    (player1Signer : Service.Signer) (authTtlMinutes : option Z)
    (s : Running World Service.Call) (w1 : World) (tx : Service.Tx)
    (authEntries : list Service.AuthEntry) :
  let op := Service.start_game sessionId player1 player2
              player1Points player2Points in
  Service.simulate env op player2 None Service.DEFAULT_METHOD_OPTIONS (world s)
  = (w1, Ok tx) →
  Service.auth tx = Some authEntries →
  let out := Service.prepareStartGame rev K env sessionId player1 player2
               player1Points player2Points player1Signer authTtlMinutes s in
  (∀ entry, Service.findPlayer1AuthEntry authEntries player1 = Some entry →
            entry ∈ authEntries ∧ Service.entryAddress entry = Some player1)
  ∧ ((∃ entry, entry ∈ authEntries
               ∧ Service.entryAddress entry = Some player1) →
     is_Some (Service.findPlayer1AuthEntry authEntries player1))
  ∧ (∀ reordered, reordered ≡ₚ authEntries →
                  Service.attributable_once authEntries player1 →
                  Service.findPlayer1AuthEntry reordered player1
                  = Service.findPlayer1AuthEntry authEntries player1)
  ∧ (Forall (λ e, Service.entryAddress e ≠ Some player1) authEntries →
     out = ({| world := w1; calls := (calls s ++ [Service.Simulate op player2])%list |},
            Throw (Error (Service.tagged rev "prepareStartGame"
                            ("No auth entry found for Player 1 ("
                             +:+ player1 +:+ ")")))))
  ∧ (∀ signedXdr, out.2 = Ok signedXdr →
       ∃ entry validUntil,
         Service.findPlayer1AuthEntry authEntries player1 = Some entry
         ∧ Service.AuthorizeEntry entry validUntil ∈ calls out.1).
Proof.
  intros op Hsim Hauth out.
  split; [intros entry; apply findPlayer1AuthEntry_Some|].
  split; [apply findPlayer1AuthEntry_is_Some|].
  split; [intros reordered; apply findPlayer1AuthEntry_order|].
  subst out op.
  cbv beta zeta delta [Service.prepareStartGame await invoke throw resolve].
  rewrite Hsim. cbv beta iota zeta. rewrite Hauth.
  split.
  - intros Hnone. apply findPlayer1AuthEntry_None in Hnone.
    rewrite Hnone. reflexivity.
  - intros signedXdr.
    destruct (Service.findPlayer1AuthEntry authEntries player1) as [entry|];
      [|discriminate].
    simpl.
    destruct (Service.calculateValidUntilLedger env _ w1) as [w2 [v|e]];
      simpl; [|discriminate].
    destruct (Service.has_signAuthEntry player1Signer); simpl; [|discriminate].
    destruct (Service.authorizeEntry env entry _ v w2) as [w3 [signed|e]];
      simpl; [|discriminate].
    intros _. exists entry, v. split; [reflexivity|].
    rewrite !elem_of_app, !list_elem_of_singleton. auto.
Qed.

Lemma prepareStartGame_picks_by_address_witness :
  ∃ validUntil,
    Service.findPlayer1AuthEntry
      (Sample.dryRunAuth (Service.start_game 42 "GALICE" "GBOB" 1000000 1000000))
      "GALICE" = Some (Sample.stub "GALICE" 42 1000000)
    ∧ Service.AuthorizeEntry (Sample.stub "GALICE" 42 1000000) validUntil
      ∈ calls (Service.prepareStartGame Terse Sample.constants Sample.ledger
                 42 "GALICE" "GBOB" 1000000 1000000 (Sample.walletOf "GALICE")
                 None (Sample.at_ledger 10)).1.
Proof.
  destruct (prepareStartGame_picks_by_address Terse Sample.constants
              Sample.ledger 42 "GALICE" "GBOB" 1000000 1000000
              (Sample.walletOf "GALICE") None (Sample.at_ledger 10) 10
              {| Service.operation :=
                   Service.start_game 42 "GALICE" "GBOB" 1000000 1000000;
                 Service.publicKey := "GBOB";
                 Service.auth :=
                   Some (Sample.dryRunAuth
                           (Service.start_game 42 "GALICE" "GBOB" 1000000 1000000)) |}
              _ eq_refl eq_refl)
    as (_ & _ & _ & _ & Hsigned).
  destruct (Hsigned _ eq_refl) as (entry & validUntil & Hpick & Hcall).
  exists validUntil. split; [reflexivity|].
  injection Hpick as <-. exact Hcall.
Defined.

(** A parse failure is re-thrown before anything else happens. *)
Lemma importAndSignAuthEntry_parse_failure {World : Type}
    (rev : Revision) (K : Service.Constants) (env : Service.Env World)
    (artifact : Service.AuthEntryXdr) (player2Address : string)
    (player2Points : Z) (player2Signer : Service.Signer)
    (authTtlMinutes : option Z) (s : Running World Service.Call) (e : Exn) :
  Service.parseAuthEntry rev artifact = Throw e →
  Service.importAndSignAuthEntry rev K env artifact player2Address
    player2Points player2Signer authTtlMinutes s
  = (s, Throw e).
Proof.
  intros Hparse.
  cbv beta zeta delta [Service.importAndSignAuthEntry await Service.liftResult].
  rewrite Hparse. reflexivity.
Qed.

(** C4. When the artifact parses and the responder's address is the
    initiator's, [importAndSignAuthEntry] throws "Cannot play against
    yourself" in the state it was called in: the world is untouched and no
    collaborator (dry-run, ledger, merge, wallet) has been called. *)
Theorem importAndSignAuthEntry_rejects_self_play {World : Type}
    (rev : Revision) (K : Service.Constants) (env : Service.Env World)
    (artifact : Service.AuthEntryXdr) (player2Address : string)
    (player2Points : Z) (player2Signer : Service.Signer)
    (authTtlMinutes : option Z) (s : Running World Service.Call)
    (gameParams : Service.GameParams) :
  Service.parseAuthEntry rev artifact = Ok gameParams →
  player2Address = Service.player1 gameParams →
  Service.importAndSignAuthEntry rev K env artifact player2Address
    player2Points player2Signer authTtlMinutes s
  = (s, Throw (Error "Cannot play against yourself")).
Proof.
  intros Hparse Hself.
  cbv beta zeta delta [Service.importAndSignAuthEntry await Service.liftResult].
  rewrite Hparse. cbv beta iota.
  rewrite bool_decide_eq_true_2 by exact Hself. reflexivity.
Qed.

Lemma importAndSignAuthEntry_rejects_self_play_witness :
  Service.importAndSignAuthEntry Terse Sample.constants Sample.ledger
    (Service.Encoded (Sample.aliceEntry 900)) "GALICE" 1000000
    (Sample.walletOf "GALICE") None (Sample.at_ledger 500)
  = (Sample.at_ledger 500, Throw (Error "Cannot play against yourself")).
Proof.
  apply (importAndSignAuthEntry_rejects_self_play Terse Sample.constants
           Sample.ledger (Service.Encoded (Sample.aliceEntry 900)) "GALICE"
           1000000 (Sample.walletOf "GALICE") None (Sample.at_ledger 500)
           {| Service.sessionId := 42; Service.player1 := "GALICE";
              Service.player1Points := 1000000;
              Service.functionName := "start_game" |});
    reflexivity.
Defined.

(** ** Byte lengths checked before submission *)

(** [commitBoard], in both revisions, throws on a hash that is not 32 bytes
    long before it builds anything. *)
Lemma commitBoard_rejects_wrong_length {World : Type}
    (rev : Revision) (K : Service.Constants) (env : Service.Env World)
    (sessionId : Z) (player : string) (boardHash : Service.Bytes)
    (signer : Service.Signer) (authTtlMinutes : option Z)
    (s : Running World Service.Call) :
  length boardHash ≠ 32%nat →
  Service.commitBoard rev K env sessionId player boardHash signer
    authTtlMinutes s
  = (s, Throw (Error (Service.tagged rev "commitBoard"
                        ("boardHash must be 32 bytes, got "
                         +:+ pretty (length boardHash))))).
Proof.
  intros Hlen. unfold Service.commitBoard.
  rewrite bool_decide_eq_true_2 by exact Hlen. reflexivity.
Qed.

(** [respondToAttack] of poisonGameService.ts throws on a proof that is not
    14592 bytes long before it builds anything. *)
Lemma respondToAttack_rejects_wrong_length {World : Type}
    (K : Service.Constants) (env : Service.Env World)
    (sessionId : Z) (defender : string) (tileType : Z)
    (proofBlob : Service.Bytes) (signer : Service.Signer)
    (authTtlMinutes : option Z) (s : Running World Service.Call) :
  Z.of_nat (length proofBlob) ≠ 14592 →
  Service.respondToAttack Terse K env sessionId defender tileType proofBlob
    signer authTtlMinutes s
  = (s, Throw (Error ("Proof must be 14592 bytes, got "
                      +:+ pretty (length proofBlob)))).
Proof.
  intros Hlen. unfold Service.respondToAttack.
  rewrite bool_decide_eq_true_2 by exact Hlen. reflexivity.
Qed.

(** The logging revision of [respondToAttack] only warns: whatever the
    length of the proof, its first act is the dry-run of [respond_to_attack]
    with that proof, and it sends the transaction when the dry-run and the
    ledger query succeed. *)
Lemma respondToAttack_verbose_ignores_length {World : Type}
    (K : Service.Constants) (env : Service.Env World)
    (sessionId : Z) (defender : string) (tileType : Z)
    (proofBlob : Service.Bytes) (signer : Service.Signer)
    (authTtlMinutes : option Z) (s : Running World Service.Call) :
  let op := Service.respond_to_attack sessionId defender tileType proofBlob in
  let out := Service.respondToAttack Verbose K env sessionId defender tileType
               proofBlob signer authTtlMinutes s in
  (∃ rest, calls out.1 = (calls s ++ Service.Simulate op defender :: rest)%list)
  ∧ (∀ w1 tx w2 validUntil,
       Service.simulate env op defender (Some signer)
         Service.ZK_METHOD_OPTIONS (world s) = (w1, Ok tx) →
       Service.calculateValidUntilLedger env
         (Service.ttl authTtlMinutes (Service.DEFAULT_AUTH_TTL_MINUTES K)) w1
       = (w2, Ok validUntil) →
       Service.SignAndSend tx ∈ calls out.1).
Proof.
  intros op out. subst out op.
  cbv beta zeta delta [Service.respondToAttack await invoke throw resolve].
  split.
  - destruct (Service.simulate env _ defender (Some signer) _ (world s))
      as [w1 [tx|e]]; simpl; [|eexists; reflexivity].
    destruct (Service.calculateValidUntilLedger env _ w1) as [w2 [v|e]];
      simpl; [|rewrite <- app_assoc; eexists; reflexivity].
    destruct (Service.signAndSendViaLaunchtube env tx 120 v w2)
      as [w3 [sent|e]]; simpl;
      [|rewrite <- !app_assoc; eexists; reflexivity].
    destruct (Service.getTransactionResponse sent) as [[[] ?]|]; simpl;
      rewrite <- !app_assoc; eexists; reflexivity.
  - intros w1 tx w2 v Hsim Hledger. rewrite Hsim. simpl.
    unfold Service.ttl in Hledger |- *. rewrite Hledger. simpl.
    destruct (Service.signAndSendViaLaunchtube env tx 120 v w2)
      as [w3 [sent|e]]; simpl.
    + destruct (Service.getTransactionResponse sent) as [[[] ?]|]; simpl;
        rewrite !elem_of_app, !list_elem_of_singleton; auto.
    + rewrite !elem_of_app, !list_elem_of_singleton; auto.
Qed.

(** C6, where the code departs from it.  The logging revision of
    [respondToAttack], given an empty proof, builds, signs and submits the
    [respond_to_attack] transaction carrying it and returns the ledger's
    result; the revision kept as poisonGameService.ts throws on the same
    input without calling anything. *)
Theorem respondToAttack_verbose_sends_wrong_size_proof :
  Service.respondToAttack Verbose Sample.constants Sample.ledger 42 "GBOB"
    Poison [] (Sample.walletOf "GBOB") None (Sample.at_ledger 10)
  = ({| world := 10;
        calls :=
          [Service.Simulate (Service.respond_to_attack 42 "GBOB" Poison []) "GBOB";
           Service.LatestLedger 5;
           Service.SignAndSend
             {| Service.operation := Service.respond_to_attack 42 "GBOB" Poison [];
                Service.publicKey := "GBOB";
                Service.auth := Some [] |}] |},
     Ok "ok")
  ∧ Service.respondToAttack Terse Sample.constants Sample.ledger 42 "GBOB"
      Poison [] (Sample.walletOf "GBOB") None (Sample.at_ledger 10)
    = (Sample.at_ledger 10, Throw (Error "Proof must be 14592 bytes, got 0")).
Proof. split; reflexivity. Qed.

(** ** The validity window of the artifact *)

(** [parseAuthEntry] does not read [signatureExpirationLedger]. *)
Lemma parseAuthEntry_ignores_expiration (rev : Revision)
    (entry : Service.AuthEntry) (validUntil : Z) :
  Service.parseAuthEntry rev
    (Service.Encoded (Service.withExpiration validUntil entry))
  = Service.parseAuthEntry rev (Service.Encoded entry).
Proof.
  unfold Service.parseAuthEntry, Service.parseAuthEntry_body,
    Service.withExpiration.
  destruct (Service.credentials entry) eqn:Hc; simpl; rewrite ?Hc; reflexivity.
Qed.

(** C1.  An artifact whose validity window has lapsed when the responder
    merges it makes [importAndSignAuthEntry] fail with [HandshakeExpired],
    all else being valid: when the artifact parses, names another initiator
    than the responder, and the dry-run and the ledger query succeed, the
    merge step throws [HandshakeExpired] and the function rejects with it,
    in the world the ledger query left, having called nothing after the
    merge (the responder signs nothing).  Whatever the other steps do, an
    artifact is only accepted if its window had not lapsed at merge time. *)
Theorem importAndSignAuthEntry_rejects_expired {World : Type}
    (rev : Revision) (K : Service.Constants) (env : Service.Env World)
    (latestLedger : World → Z)
    (entry : Service.AuthEntry) (limit : Z)
    (player2Address : string) (player2Points : Z)
    (player2Signer : Service.Signer) (authTtlMinutes : option Z)
    (s : Running World Service.Call) :
  let artifact := Service.Encoded entry in
  let minutes :=
    Service.ttl authTtlMinutes (Service.MULTI_SIG_AUTH_TTL_MINUTES K) in
  let acceptOpen :=
    Service.importAndSignAuthEntry rev K
      (AuthEntryUtils.withMerge latestLedger env) artifact player2Address
      player2Points player2Signer authTtlMinutes s in
  AuthEntryUtils.validUntil artifact = Some limit →
  (∀ gameParams w1 w2 tx validUntilLedgerSeq,
     let op := Service.start_game (Service.sessionId gameParams)
                 (Service.player1 gameParams) player2Address
                 (Service.player1Points gameParams) player2Points in
     Service.parseAuthEntry rev artifact = Ok gameParams →
     player2Address ≠ Service.player1 gameParams →
     Service.simulate env op player2Address None
       Service.DEFAULT_METHOD_OPTIONS (world s) = (w1, Ok tx) →
     Service.calculateValidUntilLedger env minutes w1
     = (w2, Ok validUntilLedgerSeq) →
     limit < latestLedger w2 →
     acceptOpen
     = ({| world := w2;
           calls := calls s
                    ++ [Service.Simulate op player2Address;
                        Service.LatestLedger minutes;
                        Service.InjectSignedAuthEntry artifact
                          validUntilLedgerSeq] |},
        Throw AuthEntryUtils.HandshakeExpired))
  ∧ (∀ signedTx,
       acceptOpen.2 = Ok signedTx →
       ∃ gameParams w1 w2 tx validUntilLedgerSeq,
         Service.parseAuthEntry rev artifact = Ok gameParams
         ∧ Service.simulate env
             (Service.start_game (Service.sessionId gameParams)
                (Service.player1 gameParams) player2Address
                (Service.player1Points gameParams) player2Points)
             player2Address None Service.DEFAULT_METHOD_OPTIONS (world s)
           = (w1, Ok tx)
         ∧ Service.calculateValidUntilLedger env minutes w1
           = (w2, Ok validUntilLedgerSeq)
         ∧ latestLedger w2 ≤ limit).
Proof.
  intros artifact minutes acceptOpen Hlimit. split.
  - intros gameParams w1 w2 tx validUntilLedgerSeq op
      Hparse Hother Hsim Hledger Hlapsed.
    subst acceptOpen artifact minutes op.
    cbv beta zeta delta [Service.importAndSignAuthEntry await invoke throw
                           resolve Service.liftResult].
    rewrite Hparse. cbv beta iota.
    rewrite bool_decide_eq_false_2 by exact Hother.
    cbn [AuthEntryUtils.withMerge Service.simulate
         Service.calculateValidUntilLedger Service.injectSignedAuthEntry].
    rewrite Hsim. cbv beta iota. simpl world.
    unfold Service.ttl in Hledger |- *. rewrite Hledger. cbv beta iota.
    simpl world.
    unfold AuthEntryUtils.injectSignedAuthEntry. rewrite Hlimit.
    rewrite bool_decide_eq_true_2 by exact Hlapsed.
    simpl. rewrite <- !app_assoc. reflexivity.
  - intros signedTx. subst acceptOpen artifact minutes.
    cbv beta zeta delta [Service.importAndSignAuthEntry await invoke throw
                           resolve Service.liftResult].
    destruct (Service.parseAuthEntry rev (Service.Encoded entry))
      as [gameParams|e]; cbv beta iota; [|discriminate].
    case_bool_decide as Hself; [discriminate|].
    cbn [AuthEntryUtils.withMerge Service.simulate
         Service.calculateValidUntilLedger Service.injectSignedAuthEntry].
    destruct (Service.simulate env _ player2Address None _ (world s))
      as [w1 [tx|e]] eqn:Hsim; cbv beta iota; [|discriminate].
    simpl world.
    destruct (Service.calculateValidUntilLedger env _ w1)
      as [w2 [validUntilLedgerSeq|e]] eqn:Hledger; cbv beta iota;
      [|discriminate].
    simpl world.
    unfold AuthEntryUtils.injectSignedAuthEntry. rewrite Hlimit.
    case_bool_decide as Hlapsed; [discriminate|].
    intros _. exists gameParams, w1, w2, tx, validUntilLedgerSeq.
    repeat split; auto. lia.
Qed.

Lemma importAndSignAuthEntry_rejects_expired_witness :
  AuthEntryUtils.validUntil Sample.expiredArtifact = Some 100
  ∧ world (Sample.at_ledger 500) = 500
  ∧ (Service.importAndSignAuthEntry Verbose Sample.constants
       (AuthEntryUtils.withMerge (λ w, w) Sample.ledger)
       Sample.expiredArtifact "GBOB" 1000000 (Sample.walletOf "GBOB") None
       (Sample.at_ledger 500)).2
    = Throw AuthEntryUtils.HandshakeExpired.
Proof.
  split; [reflexivity|]. split; [reflexivity|].
  pose proof (importAndSignAuthEntry_rejects_expired Verbose Sample.constants
                Sample.ledger (λ w, w) (Sample.aliceEntry 100) 100 "GBOB"
                1000000 (Sample.walletOf "GBOB") None (Sample.at_ledger 500)
                eq_refl) as [Hexpired _].
  exact (f_equal snd
           (Hexpired
              {| Service.sessionId := 42; Service.player1 := "GALICE";
                 Service.player1Points := 1000000;
                 Service.functionName := "start_game" |}
              500 500 _ 1220 eq_refl ltac:(simpl; discriminate)
              eq_refl eq_refl ltac:(simpl; lia))).
Defined.

(** * Further properties *)

(** ** The proof engine: initialisation, hashing, teardown *)

Section EngineMoreFacts.
Import ZkPoisonEngine ZkPoisonEngineRest.
Context {World Witness : Type}.
Variable rev : Revision.
Variable tk : Toolkit World Witness.

(** [_doInit] sets [_initialized] exactly when it succeeds, and leaves
    [_initializing] alone. *)
Lemma doInit_flags (s : State World) :
  _initialized (this s) = false →
  _initializing (this (_doInit rev tk s).1) = _initializing (this s)
  ∧ _initialized (this (_doInit rev tk s).1) = is_Ok (_doInit rev tk s).2.
Proof.
  intros Hinit.
  unfold _doInit, try_catch, await, call, invoke, set, modify, throw. simpl.
  destruct (fetch_circuit tk (world (run s))) as [w1 [resp|e]]; simpl;
    [|auto].
  destruct (ok resp); simpl; [|auto].
  destruct (resp_json tk w1) as [w2 [[]|e]]; simpl; [|auto].
  destruct (noir_init tk w2) as [w3 [[]|e]]; simpl; [|auto].
  destruct (new_UltraHonkBackend tk w3) as [w4 [[]|e]]; simpl; [|auto].
  destruct (Barretenberg_new tk w4) as [w5 [[]|e]]; simpl; auto.
Qed.

(** A successful [_doInit] leaves every handle in place. *)
Lemma doInit_handles (s : State World) :
  is_Ok (_doInit rev tk s).2 = true →
  noir (this (_doInit rev tk s).1) = true
  ∧ backend (this (_doInit rev tk s).1) = true
  ∧ bb (this (_doInit rev tk s).1) = true.
Proof.
  unfold _doInit, try_catch, await, call, invoke, set, modify, throw. simpl.
  destruct (fetch_circuit tk (world (run s))) as [w1 [resp|e]]; simpl;
    [|discriminate].
  destruct (ok resp); simpl; [|discriminate].
  destruct (resp_json tk w1) as [w2 [[]|e]]; simpl; [|discriminate].
  destruct (noir_init tk w2) as [w3 [[]|e]]; simpl; [|discriminate].
  destruct (new_UltraHonkBackend tk w3) as [w4 [[]|e]]; simpl; [|discriminate].
  destruct (Barretenberg_new tk w4) as [w5 [[]|e]]; simpl; [auto|discriminate].
Qed.

End EngineMoreFacts.

(** X1. [init] settles once: a second [init] returns what the first one
    returned and changes nothing, makes no call in particular.  So a
    successful initialisation is never repeated, and after a failed one every
    later [init] fails with the same exception without trying again. *)
Theorem init_settles_once {World Witness : Type} (rev : Revision)
    (tk : ZkPoisonEngine.Toolkit World Witness)
    (s : ZkPoisonEngine.State World) :
  ZkPoisonEngine.init rev tk (ZkPoisonEngine.init rev tk s).1
  = ((ZkPoisonEngine.init rev tk s).1, (ZkPoisonEngine.init rev tk s).2).
Proof.
  unfold ZkPoisonEngine.init at 2 3 4.
  destruct (ZkPoisonEngine._initialized (ZkPoisonEngine.this s)) eqn:Hdone.
  { simpl. unfold ZkPoisonEngine.init. rewrite Hdone. reflexivity. }
  destruct (ZkPoisonEngine._initializing (ZkPoisonEngine.this s)) as [r|] eqn:Hing.
  { simpl. unfold ZkPoisonEngine.init. rewrite Hdone, Hing. reflexivity. }
  destruct (doInit_flags rev tk s Hdone) as [_ Hflag].
  destruct (ZkPoisonEngine._doInit rev tk s) as [s' r]. simpl in *.
  unfold ZkPoisonEngine.init. simpl. rewrite Hflag.
  destruct r as [[]|e]; reflexivity.
Qed.

(** X2. A proof is only ever returned for a true statement about the board:
    when [generateTileProof] returns, the array has 15 slots, the index is in
    0..14, the slot at the index holds the claimed type, the witness was
    computed from exactly these inputs, and (in the revision that checks it)
    the proof is 14592 bytes long. *)
Theorem generateTileProof_returns_true_claims {World Witness : Type}
    (rev : Revision) (tk : ZkPoisonEngine.Toolkit World Witness)
    (s : ZkPoisonEngine.State World)
    (tiles : Tiles) (salt : Z) (commitment : ZkPoisonEngine.Bytes)
    (tileIndex tileType : Z) (proof : ZkPoisonEngine.Bytes) :
  let out := ZkPoisonEngine.generateTileProof rev tk tiles salt commitment
               tileIndex tileType s in
  out.2 = Ok proof →
  length tiles = 15%nat ∧ 0 ≤ tileIndex ≤ 14
  ∧ ZkPoisonEngine.at_index tiles tileIndex = Some tileType
  ∧ ZkPoisonEngine.NoirExecute
      {| ZkPoisonEngine.board_layout := tiles; ZkPoisonEngine.salt := salt;
         ZkPoisonEngine.commitment := commitment;
         ZkPoisonEngine.tile_index := tileIndex;
         ZkPoisonEngine.tile_type_result := tileType |}
    ∈ calls (ZkPoisonEngine.run out.1)
  ∧ (rev = Terse → Z.of_nat (length proof) = 14592).
Proof.
  intros out. subst out.
  cbv beta delta [ZkPoisonEngine.generateTileProof await gets throw].
  destruct (ZkPoisonEngine.init rev tk s) as [s1 [[]|e]]; simpl;
    [|discriminate].
  destruct (negb (ZkPoisonEngine.noir (ZkPoisonEngine.this s1))
            || negb (ZkPoisonEngine.backend (ZkPoisonEngine.this s1)));
    simpl; [discriminate|].
  destruct (bool_decide (length tiles ≠ 15%nat)) eqn:Hlen;
    simpl; [discriminate|].
  destruct (bool_decide (tileIndex < 0)) eqn:Hlow; simpl; [discriminate|].
  destruct (bool_decide (tileIndex > 14)) eqn:Hhigh; simpl; [discriminate|].
  destruct (bool_decide (ZkPoisonEngine.at_index tiles tileIndex ≠ Some tileType))
    eqn:Hat; simpl; [discriminate|].
  apply bool_decide_eq_false in Hlen, Hlow, Hhigh, Hat.
  apply dec_stable in Hlen. apply dec_stable in Hat.
  unfold ZkPoisonEngine.call, invoke. simpl.
  destruct (ZkPoisonEngine.noir_execute tk _ _) as [w1 [wit|e]]; simpl;
    [|discriminate].
  destruct (ZkPoisonEngine.backend_generateProof tk wit w1) as [w2 [pd|e]];
    simpl; [|destruct rev; discriminate].
  intros Hok.
  assert (ZkPoisonEngine.NoirExecute
            {| ZkPoisonEngine.board_layout := tiles; ZkPoisonEngine.salt := salt;
               ZkPoisonEngine.commitment := commitment;
               ZkPoisonEngine.tile_index := tileIndex;
               ZkPoisonEngine.tile_type_result := tileType |}
          ∈ ((calls (ZkPoisonEngine.run s1)
              ++ [ZkPoisonEngine.NoirExecute
                    {| ZkPoisonEngine.board_layout := tiles;
                       ZkPoisonEngine.salt := salt;
                       ZkPoisonEngine.commitment := commitment;
                       ZkPoisonEngine.tile_index := tileIndex;
                       ZkPoisonEngine.tile_type_result := tileType |}])
              ++ [ZkPoisonEngine.GenerateProof])%list) as Hin.
  { rewrite !elem_of_app, !list_elem_of_singleton. auto. }
  destruct rev; simpl in *.
  - destruct (bool_decide (Z.of_nat (length (ZkPoisonEngine.proof pd)) ≠ 14592))
      eqn:Hsize; simpl in *; [discriminate|].
    apply bool_decide_eq_false, dec_stable in Hsize.
    injection Hok as <-. repeat split; try assumption; try lia.
  - injection Hok as <-. repeat split; try assumption; try lia. discriminate.
Qed.

Lemma generateTileProof_returns_true_claims_witness :
  ZkPoisonEngine.at_index Sample.board 3 = Some Poison
  ∧ Z.of_nat (length (replicate (Z.to_nat 14592) Byte.x00)) = 14592.
Proof.
  pose proof (generateTileProof_returns_true_claims Terse SampleMore.toolkit
                Sample.engineAtStart Sample.board 5 [] 3 Poison
                (replicate (Z.to_nat 14592) Byte.x00) eq_refl)
    as (_ & _ & Hat & _ & Hsize).
  split; [exact Hat | exact (Hsize eq_refl)].
Defined.

(** X3. [computeBoardHash] hashes only 15-slot boards: with another length
    it throws in the state [init] left, and a hash it returns is what the
    Pedersen hash gave for the 15 tiles followed by the salt. *)
Theorem computeBoardHash_hashes_tiles_then_salt {World Witness : Type}
    (rev : Revision) (tk : ZkPoisonEngine.Toolkit World Witness)
    (pedersenHash : list Z → World → World * Result ZkPoisonEngine.Bytes)
    (s : ZkPoisonEngine.State World) (tiles : Tiles) (salt : Z) :
  let out := ZkPoisonEngineRest.computeBoardHash rev tk pedersenHash tiles
               salt s in
  (length tiles ≠ 15%nat →
   out.1 = (ZkPoisonEngine.init rev tk s).1 ∧ ∃ e, out.2 = Throw e)
  ∧ (∀ hash, out.2 = Ok hash →
       length tiles = 15%nat
       ∧ (pedersenHash (tiles ++ [salt])%list
            (world (ZkPoisonEngine.run (ZkPoisonEngine.init rev tk s).1))).2
         = Ok hash
       ∧ calls (ZkPoisonEngine.run out.1)
         = calls (ZkPoisonEngine.run (ZkPoisonEngine.init rev tk s).1)).
Proof.
  intros out. subst out.
  cbv beta delta [ZkPoisonEngineRest.computeBoardHash await gets throw].
  destruct (ZkPoisonEngine.init rev tk s) as [s1 [[]|e]]; simpl.
  2:{ split; [eauto | discriminate]. }
  destruct (negb (ZkPoisonEngine.bb (ZkPoisonEngine.this s1))); simpl.
  { split; [eauto | discriminate]. }
  destruct (bool_decide (length tiles ≠ 15%nat)) eqn:Hlen; simpl.
  { split; [eauto | discriminate]. }
  apply bool_decide_eq_false, dec_stable in Hlen.
  split; [intros Hne; destruct (Hne Hlen)|].
  intros hash. unfold ZkPoisonEngineRest.perform.
  destruct (pedersenHash _ _) as [w r]; simpl. intros ->. auto.
Qed.

(** X4. In the logging revision [destroy] does not clear [_initializing]:
    once [init] has been called, an engine that is destroyed never works
    again.  Every later [generateTileProof] throws without fetching or
    initialising anything, leaving the state as it is. *)
Theorem destroy_verbose_is_final {World Witness : Type}
    (tk : ZkPoisonEngine.Toolkit World Witness)
    (backend_destroy bb_destroy : World → World * Result unit)
    (s : ZkPoisonEngine.State World)
    (tiles : Tiles) (salt : Z) (commitment : ZkPoisonEngine.Bytes)
    (tileIndex tileType : Z) :
  ZkPoisonEngine._initializing (ZkPoisonEngine.this s) ≠ None →
  let s' := (ZkPoisonEngineRest.destroy Verbose backend_destroy bb_destroy s).1 in
  let out := ZkPoisonEngine.generateTileProof Verbose tk tiles salt commitment
               tileIndex tileType s' in
  out.1 = s' ∧ ∃ e, out.2 = Throw e.
Proof.
  intros Hcalled s' out.
  assert (ZkPoisonEngine._initialized (ZkPoisonEngine.this s') = false
          ∧ ZkPoisonEngine.noir (ZkPoisonEngine.this s') = false
          ∧ ZkPoisonEngine._initializing (ZkPoisonEngine.this s')
            = ZkPoisonEngine._initializing (ZkPoisonEngine.this s))
    as (Hdone & Hnoir & Hing).
  { subst s'.
    unfold ZkPoisonEngineRest.destroy, try_catch, await, gets, resolve,
      ZkPoisonEngine.set, modify, ZkPoisonEngineRest.perform. simpl.
    destruct (ZkPoisonEngine.backend (ZkPoisonEngine.this s)); simpl.
    - destruct (backend_destroy _) as [w1 [[]|e]]; simpl; [|auto].
      destruct (ZkPoisonEngine.bb (ZkPoisonEngine.this s)); simpl; [|auto].
      destruct (bb_destroy w1) as [w2 [[]|e]]; simpl; auto.
    - destruct (ZkPoisonEngine.bb (ZkPoisonEngine.this s)); simpl; [|auto].
      destruct (bb_destroy _) as [w2 [[]|e]]; simpl; auto. }
  subst out.
  cbv beta delta [ZkPoisonEngine.generateTileProof await gets throw].
  unfold ZkPoisonEngine.init. rewrite Hdone, Hing.
  destruct (ZkPoisonEngine._initializing (ZkPoisonEngine.this s)) as [[[]|e]|];
    [| |congruence]; simpl.
  - rewrite Hnoir. simpl. eauto.
  - eauto.
Qed.

Lemma destroy_verbose_is_final_witness :
  let ready := (ZkPoisonEngine.init Verbose SampleMore.toolkit
                  Sample.engineAtStart).1 in
  let s' := (ZkPoisonEngineRest.destroy Verbose SampleMore.destroyed
               SampleMore.destroyed ready).1 in
  ZkPoisonEngine.generateTileProof Verbose SampleMore.toolkit Sample.board 5 []
    3 Poison s'
  = (s', Throw (Error "Engine not initialised")).
Proof.
  intros ready s'.
  destruct (destroy_verbose_is_final SampleMore.toolkit SampleMore.destroyed
              SampleMore.destroyed ready Sample.board 5 [] 3 Poison
              ltac:(simpl; discriminate)) as [Hstate _].
  reflexivity.
Defined.

(** X5. In the other revision [destroy] clears [_initializing] too: the next
    [init] starts over by fetching the circuit. *)
Theorem destroy_terse_allows_restart {World Witness : Type}
    (tk : ZkPoisonEngine.Toolkit World Witness)
    (backend_destroy bb_destroy : World → World * Result unit)
    (s : ZkPoisonEngine.State World) :
  let s' := (ZkPoisonEngineRest.destroy Terse backend_destroy bb_destroy s).1 in
  calls (ZkPoisonEngine.run s') = calls (ZkPoisonEngine.run s)
  ∧ ∃ rest, calls (ZkPoisonEngine.run (ZkPoisonEngine.init Terse tk s').1)
            = (calls (ZkPoisonEngine.run s)
               ++ ZkPoisonEngine.FetchCircuit :: rest)%list.
Proof.
  intros s'.
  assert (ZkPoisonEngine._initialized (ZkPoisonEngine.this s') = false
          ∧ ZkPoisonEngine._initializing (ZkPoisonEngine.this s') = None
          ∧ calls (ZkPoisonEngine.run s') = calls (ZkPoisonEngine.run s))
    as (Hdone & Hing & Hcalls).
  { subst s'.
    unfold ZkPoisonEngineRest.destroy, try_catch, await, gets, resolve,
      ZkPoisonEngine.set, modify, ZkPoisonEngineRest.perform. simpl.
    destruct (ZkPoisonEngine.backend (ZkPoisonEngine.this s)); simpl.
    - destruct (backend_destroy _) as [w1 [[]|e]]; simpl; [|auto].
      destruct (ZkPoisonEngine.bb (ZkPoisonEngine.this s)); simpl; [|auto].
      destruct (bb_destroy w1) as [w2 [[]|e]]; simpl; auto.
    - destruct (ZkPoisonEngine.bb (ZkPoisonEngine.this s)); simpl; [|auto].
      destruct (bb_destroy _) as [w2 [[]|e]]; simpl; auto. }
  split; [exact Hcalls|].
  unfold ZkPoisonEngine.init. rewrite Hdone, Hing. rewrite <- Hcalls.
  generalize s'. clear. intros s.
  unfold ZkPoisonEngine._doInit, try_catch, await, ZkPoisonEngine.call, invoke,
    ZkPoisonEngine.set, modify, throw. simpl.
  destruct (ZkPoisonEngine.fetch_circuit tk _) as [w1 [resp|e]]; simpl;
    [|eexists; reflexivity].
  destruct (ZkPoisonEngine.ok resp); simpl; [|eexists; reflexivity].
  destruct (ZkPoisonEngine.resp_json tk w1) as [w2 [[]|e]]; simpl;
    [|rewrite <- ?app_assoc; eexists; reflexivity].
  destruct (ZkPoisonEngine.noir_init tk w2) as [w3 [[]|e]]; simpl;
    [|rewrite <- ?app_assoc; eexists; reflexivity].
  destruct (ZkPoisonEngine.new_UltraHonkBackend tk w3) as [w4 [[]|e]]; simpl;
    [|rewrite <- ?app_assoc; eexists; reflexivity].
  destruct (ZkPoisonEngine.Barretenberg_new tk w4) as [w5 [[]|e]]; simpl;
    rewrite <- ?app_assoc; eexists; reflexivity.
Qed.

(** ** The salt *)

Section SaltFacts.
Import ZkPoisonEngineRest.

Lemma byteValue_range b : 0 ≤ byteValue b < 256.
Proof.
  unfold byteValue. pose proof (Byte.to_N_bounded b). lia.
Qed.


(** Shifting in a byte is multiplying by 256 and adding it. *)
Lemma lor_shiftl_byte acc b :
  0 ≤ b < 256 → Z.lor (Z.shiftl acc 8) b = 256 * acc + b.
Proof.
  intros Hb.
  pose proof (Z.add_lor_land (Z.shiftl acc 8) b) as Hsum.
  assert (Z.land (Z.shiftl acc 8) b = 0) as Hland.
  { apply Z.bits_inj'. intros n Hn.
    rewrite Z.land_spec, Z.bits_0.
    destruct (Z.lt_ge_cases n 8).
    - rewrite Z.shiftl_spec_low by assumption. reflexivity.
    - assert (Z.testbit b n = false) as ->; [|apply andb_false_r].
      destruct (Z.eq_dec b 0) as [->|]; [apply Z.bits_0|].
      apply Z.bits_above_log2; [lia|].
      assert (Z.log2 b < 8); [|lia].
      apply Z.log2_lt_pow2; lia. }
  rewrite Hland in Hsum. rewrite Z.shiftl_mul_pow2 in Hsum |- * by lia. lia.
Qed.

Lemma saltOfBytes_snoc (bytes : list Byte.byte) (b : Byte.byte) :
  saltOfBytes (bytes ++ [b])%list = 256 * saltOfBytes bytes + byteValue b.
Proof.
  unfold saltOfBytes. rewrite foldl_app. simpl.
  apply lor_shiftl_byte, byteValue_range.
Qed.

Lemma saltOfBytes_range (bytes : list Byte.byte) :
  0 ≤ saltOfBytes bytes < 2 ^ (8 * Z.of_nat (length bytes)).
Proof.
  induction bytes as [|b bytes IH] using rev_ind.
  - unfold saltOfBytes. simpl. lia.
  - rewrite saltOfBytes_snoc, length_app. simpl.
    pose proof (byteValue_range b).
    replace (8 * Z.of_nat (length bytes + 1))
      with (8 * Z.of_nat (length bytes) + 8) by lia.
    rewrite Z.pow_add_r by lia. lia.
Qed.


End SaltFacts.



(** ** The service: what is parsed, what is submitted *)

(** X7. [parseAuthEntry] reads the handshake parameters off an entry for
    [start_game]: from an entry with address credentials whose root
    invocation calls [start_game] with a u32 and an i128 it returns that
    address, the u32 and the low word of the i128, whatever the high word
    is.  An entry with address credentials that calls another function, or
    [start_game] with another number of arguments, is rejected with the
    message of that check; whatever is returned names [start_game]; and
    every failure is re-thrown as "Failed to parse auth entry: ...". *)
Theorem parseAuthEntry_reads_start_game (rev : Revision) :
  (∀ address nonce expiration signature contract sessionId hi lo,
     Service.parseAuthEntry rev
       (Service.Encoded
          {| Service.credentials :=
               Service.WithAddress address nonce expiration signature;
             Service.rootInvocation :=
               Service.ContractFn contract "start_game"
                 [Service.scvU32 sessionId; Service.scvI128 hi lo] |})
     = Ok {| Service.sessionId := sessionId; Service.player1 := address;
             Service.player1Points := lo;
             Service.functionName := "start_game" |})
  ∧ (∀ address nonce expiration signature contract fn args,
       fn ≠ "start_game" →
       Service.parseAuthEntry rev
         (Service.Encoded
            {| Service.credentials :=
                 Service.WithAddress address nonce expiration signature;
               Service.rootInvocation := Service.ContractFn contract fn args |})
       = Throw (ErrorWith "Failed to parse auth entry: "
                  (Error ((match rev with
                           | Terse => "Unexpected function in auth entry: "
                           | Verbose => "Unexpected function: "
                           end) +:+ fn))))
  ∧ (∀ address nonce expiration signature contract args,
       length args ≠ 2%nat →
       Service.parseAuthEntry rev
         (Service.Encoded
            {| Service.credentials :=
                 Service.WithAddress address nonce expiration signature;
               Service.rootInvocation :=
                 Service.ContractFn contract "start_game" args |})
       = Throw (ErrorWith "Failed to parse auth entry: "
                  (Error ((match rev with
                           | Terse => "Expected 2 args in auth entry, got "
                           | Verbose => "Expected 2 args, got "
                           end) +:+ pretty (length args)))))
  ∧ (∀ authEntryXdr gameParams,
       Service.parseAuthEntry rev authEntryXdr = Ok gameParams →
       Service.functionName gameParams = "start_game")
  ∧ (∀ authEntryXdr e,
       Service.parseAuthEntry rev authEntryXdr = Throw e →
       ∃ cause, e = ErrorWith "Failed to parse auth entry: " cause).
Proof.
  split; [|split; [|split; [|split]]].
  - reflexivity.
  - intros address nonce expiration signature contract fn args Hfn.
    unfold Service.parseAuthEntry, Service.parseAuthEntry_body. simpl.
    rewrite bool_decide_eq_true_2 by exact Hfn. reflexivity.
  - intros address nonce expiration signature contract args Hlen.
    unfold Service.parseAuthEntry, Service.parseAuthEntry_body. simpl.
    repeat case_bool_decide; congruence.
  - intros authEntryXdr gameParams.
    unfold Service.parseAuthEntry, Service.parseAuthEntry_body.
    destruct authEntryXdr
      as [|[[|addr nonce expiration signature] [contract fn args|]]];
      simpl; try discriminate.
    case_bool_decide as Hfn; [discriminate|].
    case_bool_decide as Hlen; [discriminate|].
    destruct args as [|[sid| |] [|[| hi lo |] [|]]]; try discriminate.
    intros [= <-]. exact Hfn.
  - intros authEntryXdr e. unfold Service.parseAuthEntry.
    destruct (Service.parseAuthEntry_body rev authEntryXdr); [discriminate|].
    intros [= <-]. eauto.
Qed.

Section SubmissionFacts.
Import Service ServiceCalls.
Context {World : Type}.
Variable rev : Revision.
Variable K : Constants.
Variable env : Env World.


End SubmissionFacts.

Section SubmissionCounts.
Import Service ServiceCalls.


End SubmissionCounts.

#[local] Arguments Service.pollCommit : simpl never.


(** X9. [respondToAttack] hands at most one transaction to the submission
    helper and never asks for a status; it returns a result only after it
    has submitted, and in the revision that checks the proof size only for a
    proof of 14592 bytes. *)
Theorem respondToAttack_submits_once {World : Type}
    (rev : Revision) (K : Service.Constants) (env : Service.Env World)
    (sessionId : Z) (defender : string) (tileType : Z)
    (proofBlob : Service.Bytes) (signer : Service.Signer)
    (authTtlMinutes : option Z) (s : Running World Service.Call) :
  let out := Service.respondToAttack rev K env sessionId defender tileType
               proofBlob signer authTtlMinutes s in
  ∃ new,
    ServiceCalls.extends_by s out.1 new
    ∧ (length (filter ServiceCalls.isSubmission new) ≤ 1)%nat
    ∧ filter ServiceCalls.isPoll new = []
    ∧ (∀ result, out.2 = Ok result →
         (∃ tx, Service.SignAndSend tx ∈ new)
         ∧ (rev = Terse → Z.of_nat (length proofBlob) = 14592)).
Proof.
  intros out. subst out. unfold ServiceCalls.extends_by.
  cbv beta zeta delta [Service.respondToAttack await invoke throw resolve].
  assert (rev = Terse → Z.of_nat (length proofBlob) ≠ 14592 →
          ∃ new : list Service.Call,
            calls s = (calls s ++ new)%list
            ∧ (length (filter ServiceCalls.isSubmission new) ≤ 1)%nat
            ∧ filter ServiceCalls.isPoll new = []) as Hguard.
  { intros _ _. exists []. rewrite app_nil_r. auto. }
  destruct rev; cbv iota;
    [destruct (bool_decide (Z.of_nat (length proofBlob) ≠ 14592)) eqn:Hsize;
     [apply bool_decide_eq_true in Hsize;
      destruct (Hguard eq_refl Hsize) as (new & ? & ? & ?);
      exists new; simpl; repeat (split; [assumption|]); intros; discriminate
     |apply bool_decide_eq_false, dec_stable in Hsize]
    |assert (Terse = Verbose → Z.of_nat (length proofBlob) = 14592) as Hsize
       by discriminate];
    clear Hguard; simpl.
  all: destruct (Service.simulate env _ defender (Some signer) _ (world s))
         as [w1 [tx|e]]; simpl;
       [|eexists [_]; repeat (split; [try reflexivity; simpl; lia|]);
         intros; discriminate].
  all: destruct (Service.calculateValidUntilLedger env _ w1) as [w2 [v|e]];
       simpl;
       [|eexists [_; _]; rewrite <- app_assoc;
         repeat (split; [try reflexivity; simpl; lia|]); intros; discriminate].
  all: destruct (Service.signAndSendViaLaunchtube env tx 120 v w2)
         as [w3 [sent|e]]; simpl;
       [|eexists [_; _; _]; rewrite <- !app_assoc;
         repeat (split; [try reflexivity; simpl; lia|]); intros; discriminate].
  all: exists [Service.Simulate
                 (Service.respond_to_attack sessionId defender tileType proofBlob)
                 defender;
               Service.LatestLedger
                 (Service.ttl authTtlMinutes (Service.DEFAULT_AUTH_TTL_MINUTES K));
               Service.SignAndSend tx].
  all: destruct (Service.getTransactionResponse sent) as [[[] ?]|]; simpl;
       rewrite <- !app_assoc;
       (split; [reflexivity|]); (split; [lia|]); (split; [reflexivity|]);
       intros result Hres; try discriminate;
       (split; [exists tx; right; right; left | auto]).
Qed.

(** X10. The handshake is prepared and accepted off the ledger: neither
    [prepareStartGame] nor [importAndSignAuthEntry] submits a transaction or
    asks for the status of one, whatever their collaborators answer. *)
Theorem handshake_submits_nothing {World : Type}
    (rev : Revision) (K : Service.Constants) (env : Service.Env World)
    (sessionId : Z) (player1 player2 : string) (player1Points player2Points : Z)
    (player1Signer player2Signer : Service.Signer) (authTtlMinutes : option Z)
    (artifact : Service.AuthEntryXdr) (s : Running World Service.Call) :
  (∃ new,
     ServiceCalls.extends_by s
       (Service.prepareStartGame rev K env sessionId player1 player2
          player1Points player2Points player1Signer authTtlMinutes s).1 new
     ∧ filter ServiceCalls.isSubmission new = []
     ∧ filter ServiceCalls.isPoll new = [])
  ∧ (∃ new,
       ServiceCalls.extends_by s
         (Service.importAndSignAuthEntry rev K env artifact player2
            player2Points player2Signer authTtlMinutes s).1 new
       ∧ filter ServiceCalls.isSubmission new = []
       ∧ filter ServiceCalls.isPoll new = []).
Proof.
  unfold ServiceCalls.extends_by. split.
  - cbv beta zeta delta [Service.prepareStartGame await invoke throw resolve].
    destruct (Service.simulate env _ player2 None _ (world s))
      as [w1 [tx|e]]; simpl; [|eexists [_]; auto].
    destruct (Service.auth tx) as [authEntries|]; simpl; [|eexists [_]; auto].
    destruct (Service.findPlayer1AuthEntry authEntries player1) as [entry|];
      simpl; [|eexists [_]; auto].
    destruct (Service.calculateValidUntilLedger env _ w1) as [w2 [v|e]]; simpl;
      [|eexists [_; _]; rewrite <- app_assoc; auto].
    destruct (Service.has_signAuthEntry player1Signer); simpl;
      [|eexists [_; _]; rewrite <- app_assoc; auto].
    destruct (Service.authorizeEntry env entry _ v w2) as [w3 [signed|e]];
      simpl; eexists [_; _; _]; rewrite <- !app_assoc; auto.
  - cbv beta zeta delta [Service.importAndSignAuthEntry await invoke throw
                           resolve Service.liftResult].
    destruct (Service.parseAuthEntry rev artifact) as [gameParams|e]; simpl;
      [|exists []; rewrite app_nil_r; auto].
    case_bool_decide; simpl; [exists []; rewrite app_nil_r; auto|].
    destruct (Service.simulate env _ player2 None _ (world s))
      as [w1 [tx|e]]; simpl; [|eexists [_]; auto].
    destruct (Service.calculateValidUntilLedger env _ w1) as [w2 [v|e]]; simpl;
      [|eexists [_; _]; rewrite <- app_assoc; auto].
    destruct (Service.injectSignedAuthEntry env tx artifact player2
                player2Signer v w2) as [w3 [merged|e]]; simpl;
      [|eexists [_; _; _]; rewrite <- !app_assoc; auto].
    destruct (Service.needsNonInvokerSigningBy env merged w3)
      as [w4 [needsSigning|e]]; simpl;
      [|eexists [_; _; _; _]; rewrite <- !app_assoc; auto].
    case_bool_decide; simpl;
      [|eexists [_; _; _; _]; rewrite <- !app_assoc; auto].
    destruct (Service.signAuthEntries env player2Signer merged v w4)
      as [w5 [signed|e]]; simpl;
      eexists [_; _; _; _; _]; rewrite <- !app_assoc; auto.
Qed.

(** X11. The responder parses the session id and the address the initiator
    was asked to authorize, and the wager up to 64 bits.  When the dry-run
    attributes to Player 1 an entry for [start_game(sessionId, points)] and
    signing leaves the address and the invocation of an entry in place, the
    artifact returned by [prepareStartGame] parses (in either revision) to
    that session id, Player 1's address and [points mod 2^64], and a
    responder with another address starts [importAndSignAuthEntry] by the
    dry-run of [start_game] with these and its own address and points.  The
    wager the responder rebuilds is the authorized one exactly for wagers
    in [0, 2^64); a larger one is cut down to its low word. *)
Theorem handshake_round_trip {World : Type}
    (rev rev' : Revision) (K : Service.Constants) (env : Service.Env World)
    (sessionId : Z) (player1 player2 : string) (player1Points player2Points : Z)
    (player1Signer : Service.Signer) (authTtlMinutes : option Z)
    (s : Running World Service.Call) (w1 : World) (tx : Service.Tx)
    (authEntries : list Service.AuthEntry) (entry : Service.AuthEntry)
    (contract : string) (artifact : Service.AuthEntryXdr)
    (responder : string) (responderPoints : Z) (responderSigner : Service.Signer)
    (s' : Running World Service.Call) :
  ServiceCalls.signs_in_place env →
  Service.simulate env
    (Service.start_game sessionId player1 player2 player1Points player2Points)
    player2 None Service.DEFAULT_METHOD_OPTIONS (world s) = (w1, Ok tx) →
  Service.auth tx = Some authEntries →
  Service.findPlayer1AuthEntry authEntries player1 = Some entry →
  Service.rootInvocation entry
  = Service.ContractFn contract "start_game"
      [Service.scvU32 sessionId; ServiceCalls.i128 player1Points] →
  (Service.prepareStartGame rev K env sessionId player1 player2 player1Points
     player2Points player1Signer authTtlMinutes s).2 = Ok artifact →
  responder ≠ player1 →
  Service.parseAuthEntry rev' artifact
  = Ok {| Service.sessionId := sessionId; Service.player1 := player1;
          Service.player1Points := player1Points mod 2 ^ 64;
          Service.functionName := "start_game" |}
  ∧ (∃ rest,
       calls (Service.importAndSignAuthEntry rev' K env artifact responder
                responderPoints responderSigner authTtlMinutes s').1
       = (calls s'
          ++ Service.Simulate
               (Service.start_game sessionId player1 responder
                  (player1Points mod 2 ^ 64) responderPoints) responder
             :: rest)%list)
  ∧ (player1Points mod 2 ^ 64 = player1Points ↔ 0 ≤ player1Points < 2 ^ 64).
Proof.
  intros Hsign Hsim Hauth Hpick Hinv Hprep Hother.
  assert (Service.parseAuthEntry rev' artifact
          = Ok {| Service.sessionId := sessionId; Service.player1 := player1;
                  Service.player1Points := player1Points mod 2 ^ 64;
                  Service.functionName := "start_game" |}) as Hparse.
  { revert Hprep.
    cbv beta zeta delta [Service.prepareStartGame await invoke throw resolve].
    rewrite Hsim. cbv beta iota. rewrite Hauth, Hpick. simpl.
    destruct (Service.calculateValidUntilLedger env _ w1) as [w2 [v|e]];
      simpl; [|discriminate].
    destruct (Service.has_signAuthEntry player1Signer); simpl; [|discriminate].
    destruct (Service.authorizeEntry env entry _ v w2) as [w3 [signed|e]] eqn:Hauthz;
      simpl; [|discriminate].
    intros [= <-].
    destruct (Hsign _ _ _ _ _ _ Hauthz) as [Haddr Hroot].
    apply findPlayer1AuthEntry_Some in Hpick as [_ Hentry].
    rewrite Hentry in Haddr. rewrite Hinv in Hroot.
    unfold Service.parseAuthEntry, Service.parseAuthEntry_body.
    unfold Service.entryAddress in Haddr.
    destruct (Service.credentials signed) as [|addr n x sg]; [discriminate|].
    injection Haddr as ->. rewrite Hroot. reflexivity. }
  split; [exact Hparse|]. split.
  2:{ split; [intros H; rewrite <- H; apply Z.mod_pos_bound; lia
             | apply Z.mod_small]. }
  cbv beta zeta delta [Service.importAndSignAuthEntry await invoke throw
                         resolve Service.liftResult].
  rewrite Hparse. cbv beta iota. simpl.
  rewrite bool_decide_eq_false_2 by exact Hother.
  destruct (Service.simulate env _ responder None _ (world s'))
    as [w1' [tx'|e]]; simpl; [|eexists; reflexivity].
  destruct (Service.calculateValidUntilLedger env _ w1') as [w2 [v|e]]; simpl;
    [|rewrite <- ?app_assoc; eexists; reflexivity].
  destruct (Service.injectSignedAuthEntry env tx' artifact responder
              responderSigner v w2) as [w3 [merged|e]]; simpl;
    [|rewrite <- ?app_assoc; eexists; reflexivity].
  destruct (Service.needsNonInvokerSigningBy env merged w3)
    as [w4 [needsSigning|e]]; simpl;
    [|rewrite <- ?app_assoc; eexists; reflexivity].
  case_bool_decide; simpl; [|rewrite <- ?app_assoc; eexists; reflexivity].
  destruct (Service.signAuthEntries env responderSigner merged v w4)
    as [w5 [signed|e]]; simpl; rewrite <- ?app_assoc; eexists; reflexivity.
Qed.

Lemma sample_ledger_signs_in_place : ServiceCalls.signs_in_place Sample.ledger.
Proof.
  intros entry sign validUntil w w' signed. simpl.
  destruct (sign "preimage" w) as [w1 [signature|e]]; [|discriminate].
  intros [= _ <-]. unfold Service.entryAddress.
  destruct (Service.credentials entry) eqn:Hc; simpl; rewrite ?Hc;
    split; reflexivity.
Defined.

Lemma handshake_round_trip_witness :
  ∃ artifact,
    (Service.prepareStartGame Terse Sample.constants Sample.ledger 42 "GALICE"
       "GPLACEHOLDER" 1000000 1000000 (Sample.walletOf "GALICE") None
       (Sample.at_ledger 10)).2 = Ok artifact
    ∧ Service.parseAuthEntry Verbose artifact
      = Ok {| Service.sessionId := 42; Service.player1 := "GALICE";
              Service.player1Points := 1000000;
              Service.functionName := "start_game" |}.
Proof.
  eexists. split; [reflexivity|].
  refine (proj1 (handshake_round_trip Terse Verbose Sample.constants
                   Sample.ledger 42 "GALICE" "GPLACEHOLDER" 1000000 1000000
                   (Sample.walletOf "GALICE") None (Sample.at_ledger 10) 10 _
                   _ (Sample.stub "GALICE" 42 1000000) "CPOISONGAME" _
                   "GBOB" 2000000 (Sample.walletOf "GBOB")
                   (Sample.at_ledger 20)
                   sample_ledger_signs_in_place eq_refl eq_refl eq_refl
                   eq_refl eq_refl _)).
  discriminate.
Defined.

(** ** Decimal and hexadecimal text *)

Section TextFacts.
Import Text.

Lemma decimalFrom_shift acc s :
  decimalFrom acc s = acc * 10 ^ Z.of_nat (String.length s) + decimalFrom 0 s.
Proof.
  revert acc. induction s as [|c s IH]; intros acc; simpl String.length.
  - simpl. lia.
  - simpl decimalFrom. rewrite (IH (10 * acc + digitValue c)), (IH (10 * 0 + digitValue c)).
    rewrite Nat2Z.inj_succ, Z.pow_succ_r by lia. lia.
Qed.

Lemma pretty_N_char_digit x :
  (x < 10)%N →
  isDigit (pretty_N_char x) = true ∧ digitValue (pretty_N_char x) = Z.of_N x.
Proof.
  intros Hx.
  assert (x = 0 ∨ x = 1 ∨ x = 2 ∨ x = 3 ∨ x = 4 ∨ x = 5 ∨ x = 6 ∨ x = 7
          ∨ x = 8 ∨ x = 9)%N as Hcases by lia.
  repeat (destruct Hcases as [->|Hcases]; [split; reflexivity|]).
  subst. split; reflexivity.
Qed.

Lemma pretty_N_go_decimal x s :
  allDigits s = true →
  allDigits (pretty_N_go x s) = true
  ∧ decimalValue (pretty_N_go x s)
    = Z.of_N x * 10 ^ Z.of_nat (String.length s) + decimalValue s.
Proof.
  unfold decimalValue.
  revert s. induction (N.lt_wf_0 x) as [x _ IH]; intros s Hs.
  assert (x = 0 ∨ 0 < x)%N as [->|Hpos] by lia.
  - rewrite pretty_N_go_0. split; [assumption | lia].
  - rewrite pretty_N_go_step by assumption.
    destruct (pretty_N_char_digit (x `mod` 10)%N) as [Hd Hv].
    { apply N.mod_lt. lia. }
    destruct (IH (x `div` 10)%N) with (s := String (pretty_N_char (x `mod` 10)) s)
      as [Hall Hval].
    { apply N.div_lt; lia. }
    { simpl. rewrite Hd, Hs. reflexivity. }
    split; [exact Hall|].
    rewrite Hval. simpl String.length. simpl decimalFrom.
    rewrite (decimalFrom_shift (10 * 0 + _) s), Hv.
    rewrite Nat2Z.inj_succ, Z.pow_succ_r by lia.
    pose proof (N.div_mod x 10 ltac:(lia)) as Hdm.
    rewrite N2Z.inj_div, N2Z.inj_mod.
    pose proof (Z.div_mod (Z.of_N x) 10 ltac:(lia)) as Hz.
    change (Z.of_N 10) with 10. lia.
Qed.

(** The decimal rendering of a non-negative integer is a non-empty string
    of digits that spells it. *)
Lemma pretty_Z_decimal (z : Z) :
  0 ≤ z →
  pretty z ≠ "" ∧ allDigits (pretty z) = true ∧ decimalValue (pretty z) = z.
Proof.
  intros Hz.
  assert (allDigits (pretty z) = true ∧ decimalValue (pretty z) = z) as [Ha Hv].
  { destruct z as [|p|p]; [split; reflexivity| |lia].
    unfold pretty, pretty_Z, pretty, pretty_positive, pretty, pretty_N.
    rewrite decide_False by discriminate.
    destruct (pretty_N_go_decimal (N.pos p) "" eq_refl) as [Hall Hval].
    split; [exact Hall|]. rewrite Hval. simpl. unfold decimalValue. simpl. lia. }
  split; [|split; assumption].
  intros Hempty. rewrite Hempty in Hv. unfold decimalValue in Hv. simpl in Hv.
  subst z. discriminate Hempty.
Qed.

Lemma decimalBigInt_reads_decimal : reads_decimal decimalBigInt.
Proof.
  intros digits Hne Hall. unfold decimalBigInt.
  rewrite bool_decide_eq_true_2 by exact Hne. rewrite Hall. reflexivity.
Defined.

(** Decoding the hexadecimal text of a byte array gives the array back. *)
Lemma fromHex_toHex bytes : fromHex (toHex bytes) = bytes.
Proof.
  induction bytes as [|b bytes IH]; [reflexivity|].
  simpl toHex.
  assert (∀ rest, fromHex (String (hexDigit (Byte.to_N b / 16))
                             (String (hexDigit (Byte.to_N b mod 16)) rest))
                  = b :: fromHex rest) as Hpair.
  { intros rest. destruct b; reflexivity. }
  rewrite Hpair, IH. reflexivity.
Qed.

(** A string of digits followed by a dash determines both the digits and
    what follows the dash. *)
Lemma digits_dash_inj d1 d2 x y :
  allDigits d1 = true → allDigits d2 = true →
  d1 +:+ String "-" x = d2 +:+ String "-" y → d1 = d2 ∧ x = y.
Proof.
  revert d2. induction d1 as [|c1 d1 IH]; intros [|c2 d2] H1 H2 Heq;
    simpl in *.
  - injection Heq as ->. auto.
  - injection Heq as <- _. discriminate.
  - injection Heq as -> _. discriminate.
  - apply andb_true_iff in H1 as [_ H1]. apply andb_true_iff in H2 as [_ H2].
    injection Heq as -> Heq. destruct (IH d2 H1 H2 Heq) as [-> ->]. auto.
Qed.

End TextFacts.

(** ** The stored board *)

Section BoardStoreFacts.
Import BoardStore.

(** Different sessions or players have different keys. *)
Lemma boardKey_inj sid addr sid' addr' :
  0 ≤ sid → 0 ≤ sid' →
  boardKey sid addr = boardKey sid' addr' → sid = sid' ∧ addr = addr'.
Proof.
  intros Hs Hs' Heq. unfold boardKey in Heq. simpl in Heq.
  injection Heq as Heq.
  destruct (pretty_Z_decimal sid Hs) as (_ & Ha & _).
  destruct (pretty_Z_decimal sid' Hs') as (_ & Ha' & _).
  destruct (digits_dash_inj _ _ _ _ Ha Ha' Heq) as [Hp ->].
  split; [|reflexivity]. apply (inj pretty). exact Hp.
Qed.

End BoardStoreFacts.

(** X12. A board saved for a session and a player is read back as it was:
    when [localStorage] is usable and the salt is not negative, [loadBoard]
    after [saveBoard] returns the same tiles, salt and commitment. *)
Theorem loadBoard_after_saveBoard (BigInt : string → option Z)
    (st : BoardStore.LocalStorage) (sid : Z) (addr : string)
    (tiles : Tiles) (salt : Z) (commitment : list Byte.byte) :
  Text.reads_decimal BigInt →
  BoardStore.usable st = true →
  0 ≤ salt →
  BoardStore.loadBoard BigInt
    (BoardStore.saveBoard st sid addr tiles salt commitment) sid addr
  = Some {| BoardStore.tiles := tiles; BoardStore.salt := salt;
            BoardStore.commitment := commitment |}.
Proof.
  intros HBigInt Husable Hsalt.
  unfold BoardStore.loadBoard, BoardStore.saveBoard. rewrite Husable. simpl.
  rewrite lookup_insert_eq. simpl.
  destruct (pretty_Z_decimal salt Hsalt) as (Hne & Hall & Hval).
  rewrite (HBigInt _ Hne Hall), Hval, fromHex_toHex. reflexivity.
Qed.

Lemma loadBoard_after_saveBoard_witness :
  BoardStore.loadBoard Text.decimalBigInt
    (BoardStore.saveBoard SampleMore.emptyStorage 42 "GALICE" Sample.board
       1234567890123 [Byte.x0a; Byte.xff]) 42 "GALICE"
  = Some {| BoardStore.tiles := Sample.board; BoardStore.salt := 1234567890123;
            BoardStore.commitment := [Byte.x0a; Byte.xff] |}.
Proof.
  apply (loadBoard_after_saveBoard Text.decimalBigInt SampleMore.emptyStorage
           42 "GALICE" Sample.board 1234567890123 [Byte.x0a; Byte.xff]).
  - exact decimalBigInt_reads_decimal.
  - reflexivity.
  - lia.
Defined.

(** X13. Boards are kept apart by session and player: saving or clearing
    the board of one (session, player) does not change what [loadBoard]
    returns for another, session ids being non-negative. *)
Theorem loadBoard_other_key (BigInt : string → option Z)
    (st : BoardStore.LocalStorage) (sid sid' : Z) (addr addr' : string)
    (tiles : Tiles) (salt : Z) (commitment : list Byte.byte) :
  0 ≤ sid → 0 ≤ sid' →
  (sid, addr) ≠ (sid', addr') →
  BoardStore.loadBoard BigInt
    (BoardStore.saveBoard st sid addr tiles salt commitment) sid' addr'
  = BoardStore.loadBoard BigInt st sid' addr'
  ∧ BoardStore.loadBoard BigInt (BoardStore.clearBoard st sid addr) sid' addr'
    = BoardStore.loadBoard BigInt st sid' addr'.
Proof.
  intros Hs Hs' Hne.
  assert (BoardStore.boardKey sid addr ≠ BoardStore.boardKey sid' addr') as Hkey.
  { intros Heq. apply Hne.
    destruct (boardKey_inj _ _ _ _ Hs Hs' Heq) as [-> ->]. reflexivity. }
  unfold BoardStore.loadBoard, BoardStore.saveBoard, BoardStore.clearBoard.
  destruct (BoardStore.usable st) eqn:Husable; simpl; rewrite ?Husable; [|auto].
  rewrite lookup_insert_ne, lookup_delete_ne by exact Hkey. auto.
Qed.

Lemma loadBoard_other_key_witness :
  BoardStore.loadBoard Text.decimalBigInt
    (BoardStore.saveBoard SampleMore.emptyStorage 42 "GALICE" Sample.board 7 [])
    42 "GBOB"
  = None.
Proof.
  rewrite (proj1 (loadBoard_other_key Text.decimalBigInt
                    SampleMore.emptyStorage 42 42 "GALICE" "GBOB" Sample.board
                    7 [] ltac:(lia) ltac:(lia) ltac:(discriminate))).
  reflexivity.
Defined.

(** X14. Nothing is read back for a board that was cleared, for a key that
    was never written, or from a stored text that is not JSON with a decimal
    salt: [loadBoard] returns null and never throws. *)
Theorem loadBoard_null_cases (BigInt : string → option Z)
    (st : BoardStore.LocalStorage) (sid : Z) (addr : string) :
  BoardStore.loadBoard BigInt (BoardStore.clearBoard st sid addr) sid addr = None
  ∧ (BoardStore.items st !! BoardStore.boardKey sid addr = None →
     BoardStore.loadBoard BigInt st sid addr = None)
  ∧ (BoardStore.items st !! BoardStore.boardKey sid addr
     = Some BoardStore.Unparsable →
     BoardStore.loadBoard BigInt st sid addr = None)
  ∧ (∀ d, BoardStore.items st !! BoardStore.boardKey sid addr
          = Some (BoardStore.Json d) →
          BigInt (BoardStore.stored_salt d) = None →
          BoardStore.loadBoard BigInt st sid addr = None).
Proof.
  unfold BoardStore.loadBoard, BoardStore.clearBoard.
  destruct (BoardStore.usable st) eqn:Husable; simpl; rewrite ?Husable.
  - rewrite lookup_delete_eq.
    repeat split; try reflexivity.
    + intros ->. reflexivity.
    + intros ->. reflexivity.
    + intros d -> ->. reflexivity.
  - repeat split; reflexivity.
Qed.

(** ** Wager amounts *)

Section PointsFacts.
Import Text Points.

Lemma isDigit_not_dot c : isDigit c = true → Ascii.eqb c "." = false.
Proof.
  unfold isDigit. intros H. apply andb_true_iff in H as [H1 _].
  apply Nat.leb_le in H1.
  destruct (Ascii.eqb c ".") eqn:E; [|reflexivity].
  apply Ascii.eqb_eq in E. subst c. vm_compute in H1. lia.
Qed.

Lemma digitValue_nonneg c : isDigit c = true → 0 ≤ digitValue c ≤ 9.
Proof.
  unfold isDigit, digitValue. intros H. apply andb_true_iff in H as [H1 H2].
  apply Nat.leb_le in H1, H2. lia.
Qed.

Lemma decimalFrom_nonneg acc s :
  allDigits s = true → 0 ≤ acc → 0 ≤ decimalFrom acc s.
Proof.
  revert acc. induction s as [|c s IH]; intros acc Hs Hacc; simpl in *; [lia|].
  apply andb_true_iff in Hs as [Hc Hs].
  apply IH; [assumption|]. pose proof (digitValue_nonneg c Hc). lia.
Qed.

Lemma decimalFrom_append acc a b :
  decimalFrom acc (a +:+ b) = decimalFrom (decimalFrom acc a) b.
Proof. revert acc. induction a as [|c a IH]; intros acc; simpl; auto. Qed.

Lemma decimalValue_append a b :
  decimalValue (a +:+ b)
  = decimalValue a * 10 ^ Z.of_nat (String.length b) + decimalValue b.
Proof.
  unfold decimalValue. rewrite decimalFrom_append.
  apply decimalFrom_shift.
Qed.

Lemma allDigits_append a b :
  allDigits (a +:+ b) = allDigits a && allDigits b.
Proof.
  induction a as [|c a IH]; simpl; [reflexivity|].
  rewrite IH. apply andb_assoc.
Qed.

Lemma allDigits_repeat_zero n : allDigits (repeatChar n "0") = true.
Proof. induction n; simpl; auto. Qed.

Lemma allDigits_sliceTo n s : allDigits s = true → allDigits (sliceTo n s) = true.
Proof.
  revert s. induction n as [|n IH]; intros [|c s] H; simpl in *; auto.
  apply andb_true_iff in H as [Hc Hs]. rewrite Hc. simpl. auto.
Qed.

Lemma length_append (a b : string) :
  String.length (a +:+ b) = (String.length a + String.length b)%nat.
Proof. induction a as [|c a IH]; simpl; auto. Qed.

Lemma length_repeatChar n c : String.length (repeatChar n c) = n.
Proof. induction n; simpl; auto. Qed.

Lemma length_sliceTo n s :
  (n ≤ String.length s)%nat → String.length (sliceTo n s) = n.
Proof.
  revert s. induction n as [|n IH]; intros [|c s] H; simpl in *; try lia.
  rewrite IH; lia.
Qed.

(** The seven digits kept of a fraction. *)
Lemma padded_fraction fraction :
  allDigits fraction = true →
  let padded := sliceTo POINTS_DECIMALS (padEnd POINTS_DECIMALS "0" fraction) in
  allDigits padded = true ∧ String.length padded = 7%nat.
Proof.
  intros Hf padded. subst padded. unfold padEnd, POINTS_DECIMALS. split.
  - apply allDigits_sliceTo. rewrite allDigits_append, Hf.
    apply allDigits_repeat_zero.
  - apply length_sliceTo. rewrite length_append, length_repeatChar. lia.
Qed.

Lemma keepDigitsAndDots_kept value : digitsAndDots (keepDigitsAndDots value) = true.
Proof.
  induction value as [|c value IH]; simpl; [reflexivity|].
  destruct (isDigit c || Ascii.eqb c ".") eqn:E; simpl; [rewrite E|]; auto.
Qed.

Lemma keepDigitsAndDots_id s : digitsAndDots s = true → keepDigitsAndDots s = s.
Proof.
  induction s as [|c s IH]; simpl; [reflexivity|].
  intros H. apply andb_true_iff in H as [Hc Hs]. rewrite Hc, (IH Hs). reflexivity.
Qed.

Lemma allDigits_digitsAndDots s : allDigits s = true → digitsAndDots s = true.
Proof.
  induction s as [|c s IH]; simpl; [reflexivity|].
  intros H. apply andb_true_iff in H as [Hc Hs]. rewrite Hc, (IH Hs). reflexivity.
Qed.

Lemma digitsAndDots_append a b :
  digitsAndDots (a +:+ b) = digitsAndDots a && digitsAndDots b.
Proof.
  induction a as [|c a IH]; simpl; [reflexivity|].
  rewrite IH. apply andb_assoc.
Qed.

Lemma splitDots_pieces s :
  digitsAndDots s = true →
  splitDots s ≠ [] ∧ Forall (λ piece, allDigits piece = true) (splitDots s).
Proof.
  induction s as [|c s IH]; simpl.
  - intros _. split; [discriminate | repeat constructor].
  - intros H. apply andb_true_iff in H as [Hc Hs].
    destruct (IH Hs) as [Hne Hall].
    destruct (Ascii.eqb c ".") eqn:Hdot.
    + split; [discriminate | constructor; [reflexivity | exact Hall]].
    + rewrite orb_false_r in Hc.
      destruct (splitDots s) as [|first others]; [congruence|].
      split; [discriminate|].
      inversion Hall; subst. constructor; [|assumption].
      simpl. rewrite Hc. assumption.
Qed.

Lemma splitDots_digits s : allDigits s = true → splitDots s = [s].
Proof.
  induction s as [|c s IH]; simpl; [reflexivity|].
  intros H. apply andb_true_iff in H as [Hc Hs].
  rewrite (isDigit_not_dot c Hc), (IH Hs). reflexivity.
Qed.

Lemma splitDots_digits_dot w rest :
  allDigits w = true →
  splitDots (w +:+ String "." rest) = w :: splitDots rest.
Proof.
  induction w as [|c w IH]; simpl; [reflexivity|].
  intros H. apply andb_true_iff in H as [Hc Hw].
  rewrite (isDigit_not_dot c Hc), (IH Hw). reflexivity.
Qed.

(** What [parsePoints] returns on a text that is not rejected. *)
Lemma parsePoints_value (BigInt : string → option Z) value :
  reads_decimal BigInt →
  keepDigitsAndDots value ≠ "" → keepDigitsAndDots value ≠ "." →
  let pieces := splitDots (keepDigitsAndDots value) in
  let whole := default "0" (pieces !! 0%nat) in
  let padded :=
    sliceTo POINTS_DECIMALS
      (padEnd POINTS_DECIMALS "0" (default "" (pieces !! 1%nat))) in
  parsePoints BigInt value
  = Some (decimalValue whole * 10 ^ 7 + decimalValue padded)
  ∧ 0 ≤ decimalValue whole ∧ 0 ≤ decimalValue padded.
Proof.
  intros HBigInt Hne Hdot pieces whole padded.
  destruct (splitDots_pieces _ (keepDigitsAndDots_kept value)) as [Hnil Hall].
  fold pieces in Hnil, Hall.
  assert (allDigits whole = true) as Hwhole.
  { subst whole. destruct pieces as [|p0 rest]; [congruence|].
    simpl. inversion Hall; assumption. }
  assert (allDigits (default "" (pieces !! 1%nat)) = true) as Hfraction.
  { destruct pieces as [|p0 [|p1 rest]]; simpl; try reflexivity.
    inversion Hall as [|? ? _ Hrest]; subst. inversion Hrest; assumption. }
  destruct (padded_fraction _ Hfraction) as [Hpadded Hlen].
  fold padded in Hpadded, Hlen.
  split; [|split; apply decimalFrom_nonneg; (assumption || lia)].
  unfold parsePoints.
  rewrite bool_decide_eq_false_2 by exact Hne.
  rewrite bool_decide_eq_false_2 by exact Hdot.
  simpl orb. cbv iota. fold pieces. fold whole. fold padded.
  rewrite HBigInt.
  - rewrite decimalValue_append, Hlen. reflexivity.
  - intros Hempty. apply (f_equal String.length) in Hempty.
    rewrite length_append, Hlen in Hempty. simpl in Hempty. lia.
  - rewrite allDigits_append, Hwhole, Hpadded. reflexivity.
Qed.

Lemma keepDigitsAndDots_append a b :
  keepDigitsAndDots (a +:+ b) = keepDigitsAndDots a +:+ keepDigitsAndDots b.
Proof.
  induction a as [|c a IH]; simpl; [reflexivity|].
  destruct (isDigit c || Ascii.eqb c "."); simpl; rewrite IH; reflexivity.
Qed.

Lemma append_empty_r (s : string) : s +:+ "" = s.
Proof.
  induction s as [|c s IH]; [reflexivity|].
  change (String c (s +:+ "") = String c s). rewrite IH. reflexivity.
Qed.

Lemma sliceTo_empty n : sliceTo n "" = "".
Proof. destruct n; reflexivity. Qed.

Lemma sliceTo_repeatChar n c : sliceTo n (repeatChar n c) = repeatChar n c.
Proof. induction n as [|n IH]; simpl; [reflexivity|]. rewrite IH. reflexivity. Qed.

(** Padding and cutting a fraction cuts it first and pads what is left. *)
Lemma sliceTo_padEnd n c fraction :
  sliceTo n (padEnd n c fraction)
  = sliceTo n fraction
    +:+ repeatChar (n - String.length (sliceTo n fraction)) c.
Proof.
  unfold padEnd. revert fraction.
  induction n as [|n IH]; intros fraction; [reflexivity|].
  destruct fraction as [|a fraction].
  - simpl. rewrite sliceTo_repeatChar. reflexivity.
  - simpl. rewrite IH. reflexivity.
Qed.

Lemma decimalValue_repeat_zero n : decimalValue (repeatChar n "0") = 0.
Proof.
  unfold decimalValue.
  induction n as [|n IH]; simpl; [reflexivity|]. exact IH.
Qed.

Lemma padded_fraction_value fraction :
  decimalValue (sliceTo POINTS_DECIMALS (padEnd POINTS_DECIMALS "0" fraction))
  = decimalValue (sliceTo 7 fraction)
    * 10 ^ Z.of_nat (7 - String.length (sliceTo 7 fraction)).
Proof.
  unfold POINTS_DECIMALS.
  rewrite sliceTo_padEnd, decimalValue_append, length_repeatChar,
    decimalValue_repeat_zero.
  lia.
Qed.

(** A whole part, a dot, a fraction, and then nothing or a further dot
    with anything behind it. *)
Lemma parsePoints_whole_fraction (BigInt : string → option Z) whole fraction tail :
  reads_decimal BigInt →
  allDigits whole = true → whole ≠ "" → allDigits fraction = true →
  tail = "" ∨ (∃ rest, tail = String "." rest) →
  parsePoints BigInt (whole +:+ String "." (fraction +:+ tail))
  = Some (decimalValue whole * 10 ^ 7
          + decimalValue (sliceTo 7 fraction)
            * 10 ^ Z.of_nat (7 - String.length (sliceTo 7 fraction))).
Proof.
  intros HBigInt Hwhole Hne Hfraction Htail.
  set (value := whole +:+ String "." (fraction +:+ tail)).
  assert (∃ others,
    splitDots (keepDigitsAndDots value) = whole :: fraction :: others)
    as [others Hpieces].
  { subst value. rewrite keepDigitsAndDots_append.
    rewrite (keepDigitsAndDots_id whole) by (apply allDigits_digitsAndDots; assumption).
    change (keepDigitsAndDots (String "." (fraction +:+ tail)))
      with (String "." (keepDigitsAndDots (fraction +:+ tail))).
    rewrite splitDots_digits_dot by assumption.
    rewrite keepDigitsAndDots_append.
    rewrite (keepDigitsAndDots_id fraction)
      by (apply allDigits_digitsAndDots; assumption).
    destruct Htail as [->|[rest ->]].
    - exists []. simpl keepDigitsAndDots.
      replace (fraction +:+ "") with fraction
        by (symmetry; apply append_empty_r).
      rewrite splitDots_digits by assumption. reflexivity.
    - exists (splitDots (keepDigitsAndDots rest)).
      change (keepDigitsAndDots (String "." rest))
        with (String "." (keepDigitsAndDots rest)).
      rewrite splitDots_digits_dot by assumption. reflexivity. }
  assert (keepDigitsAndDots value ≠ "") as Hclean.
  { intros E. rewrite E in Hpieces. simpl in Hpieces. congruence. }
  assert (keepDigitsAndDots value ≠ ".") as Hdot.
  { intros E. rewrite E in Hpieces. simpl in Hpieces. congruence. }
  destruct (parsePoints_value BigInt value HBigInt Hclean Hdot) as [-> _].
  rewrite Hpieces. simpl default.
  rewrite padded_fraction_value. reflexivity.
Qed.

End PointsFacts.

(** X15. [parsePoints] reads a wager as a fixed-point number with seven
    decimals: for a [BigInt] that reads decimal digit strings, the decimal
    text of a non-negative integer [n] gives [n * 10^7]; followed by a dot
    and a digit string, the first seven digits of the fraction are kept,
    scaled to seven places (further digits are cut off, not rounded); and
    whatever follows a second dot is not read. *)
Theorem parsePoints_reads_fixed_point
  (BigInt : string → option Z) (n : Z) (fraction rest : string) :
  Text.reads_decimal BigInt →
  0 ≤ n →
  Text.allDigits fraction = true →
  let kept := Points.sliceTo 7 fraction in
  let scaled :=
    n * 10 ^ 7 + Text.decimalValue kept * 10 ^ Z.of_nat (7 - String.length kept) in
  Points.parsePoints BigInt (pretty n) = Some (n * 10 ^ 7)
  ∧ Points.parsePoints BigInt (pretty n +:+ "." +:+ fraction) = Some scaled
  ∧ Points.parsePoints BigInt (pretty n +:+ "." +:+ fraction +:+ "." +:+ rest)
    = Some scaled.
Proof.
  intros HBigInt Hn Hfraction kept scaled.
  destruct (pretty_Z_decimal n Hn) as (Hne & Hdigits & Hvalue).
  split; [|split].
  - assert (Points.keepDigitsAndDots (pretty n) = pretty n) as Hkeep
      by (apply keepDigitsAndDots_id, allDigits_digitsAndDots, Hdigits).
    assert (Points.keepDigitsAndDots (pretty n) ≠ ".") as Hdot.
    { rewrite Hkeep. intros E. rewrite E in Hdigits. discriminate. }
    assert (Points.keepDigitsAndDots (pretty n) ≠ "") as Hclean
      by (rewrite Hkeep; exact Hne).
    destruct (parsePoints_value BigInt (pretty n) HBigInt Hclean Hdot) as [-> _].
    rewrite Hkeep, (splitDots_digits _ Hdigits). simpl default.
    rewrite Hvalue. change (Some (n * 10 ^ 7 + 0) = Some (n * 10 ^ 7)).
    rewrite Z.add_0_r. reflexivity.
  - pose proof (parsePoints_whole_fraction BigInt (pretty n) fraction ""
                  HBigInt Hdigits Hne Hfraction (or_introl eq_refl)) as H.
    replace (fraction +:+ "") with fraction in H
      by (symmetry; apply append_empty_r).
    rewrite Hvalue in H. exact H.
  - pose proof (parsePoints_whole_fraction BigInt (pretty n) fraction
                  (String "." rest) HBigInt Hdigits Hne Hfraction
                  (or_intror (ex_intro _ rest eq_refl))) as H.
    rewrite Hvalue in H. exact H.
Qed.

Lemma parsePoints_reads_fixed_point_witness :
  Points.parsePoints Text.decimalBigInt "12" = Some 120000000
  ∧ Points.parsePoints Text.decimalBigInt "12.345678999" = Some 123456789
  ∧ Points.parsePoints Text.decimalBigInt "12.345678999.5" = Some 123456789.
Proof.
  apply (parsePoints_reads_fixed_point Text.decimalBigInt 12 "345678999" "5").
  - exact decimalBigInt_reads_decimal.
  - lia.
  - reflexivity.
Defined.

(** X16. With a [BigInt] that reads decimal digit strings, [parsePoints]
    returns [null] exactly when the text holds no digit and at most one
    dot, that is when nothing or a single dot is left once every
    character other than a digit or a dot is removed; a value it returns
    is never negative; and the removed characters, a minus sign among
    them, do not change the outcome. *)
Theorem parsePoints_null_iff (BigInt : string → option Z) (value : string) :
  Text.reads_decimal BigInt →
  (Points.parsePoints BigInt value = None
   ↔ Points.keepDigitsAndDots value = "" ∨ Points.keepDigitsAndDots value = ".")
  ∧ (∀ points, Points.parsePoints BigInt value = Some points → 0 ≤ points)
  ∧ Points.parsePoints BigInt (Points.keepDigitsAndDots value)
    = Points.parsePoints BigInt value.
Proof.
  intros HBigInt.
  assert (Points.keepDigitsAndDots value = "" ∨ Points.keepDigitsAndDots value = "."
          → Points.parsePoints BigInt value = None) as Hnull.
  { intros H. unfold Points.parsePoints.
    destruct H as [-> | ->]; reflexivity. }
  split; [|split].
  - split; [|exact Hnull].
    intros Hnone.
    destruct (decide (Points.keepDigitsAndDots value = "")) as [|Hclean]; [auto|].
    destruct (decide (Points.keepDigitsAndDots value = ".")) as [|Hdot]; [auto|].
    destruct (parsePoints_value BigInt value HBigInt Hclean Hdot) as [E _].
    congruence.
  - intros points Hsome.
    destruct (decide (Points.keepDigitsAndDots value = "")) as [E|Hclean];
      [rewrite Hnull in Hsome by auto; discriminate|].
    destruct (decide (Points.keepDigitsAndDots value = ".")) as [E|Hdot];
      [rewrite Hnull in Hsome by auto; discriminate|].
    destruct (parsePoints_value BigInt value HBigInt Hclean Hdot)
      as (E & Hwhole & Hpadded).
    rewrite E in Hsome. apply (inj Some) in Hsome. rewrite <- Hsome. lia.
  - unfold Points.parsePoints.
    rewrite (keepDigitsAndDots_id (Points.keepDigitsAndDots value))
      by apply keepDigitsAndDots_kept.
    reflexivity.
Qed.

Lemma parsePoints_null_iff_witness :
  (Points.parsePoints Text.decimalBigInt "-1.5 XLM" = None
   ↔ Points.keepDigitsAndDots "-1.5 XLM" = ""
     ∨ Points.keepDigitsAndDots "-1.5 XLM" = ".")
  ∧ (∀ points,
       Points.parsePoints Text.decimalBigInt "-1.5 XLM" = Some points → 0 ≤ points)
  ∧ Points.parsePoints Text.decimalBigInt (Points.keepDigitsAndDots "-1.5 XLM")
    = Points.parsePoints Text.decimalBigInt "-1.5 XLM".
Proof.
  apply (parsePoints_null_iff Text.decimalBigInt "-1.5 XLM").
  exact decimalBigInt_reads_decimal.
Defined.

(** ** The board editor over a whole session *)

Section EditorSessionFacts.
Import BoardEditor EditorSession.

Lemma boardAfterClick_length myBoard activeTool idx :
  length (boardAfterClick myBoard activeTool idx) = length myBoard.
Proof.
  unfold boardAfterClick, onClick.
  repeat case_bool_decide; simpl; rewrite ?length_insert; reflexivity.
Qed.

Lemma boardAfterClick_withinBounds myBoard activeTool idx :
  withinBounds myBoard → isTile activeTool → (idx < length myBoard)%nat →
  withinBounds (boardAfterClick myBoard activeTool idx).
Proof.
  intros Hb Htool Hidx.
  destruct (lookup_lt_is_Some_2 myBoard idx Hidx) as [y Hy].
  unfold boardAfterClick, onClick.
  repeat case_bool_decide; simpl; try assumption.
  - apply (withinBounds_after_set myBoard idx Normal y);
      auto using isTile_Normal; unfold Normal, Poison, Shield; lia.
  - apply (withinBounds_after_set myBoard idx activeTool y); auto.
    + intros -> Hne. unfold Poison in *.
      destruct (decide (2 ≤ countTile 1 myBoard)%nat); [|lia].
      exfalso. naive_solver.
    + intros -> Hne. unfold Shield in *.
      destruct (decide (1 ≤ countTile 2 myBoard)%nat); [|lia].
      exfalso. naive_solver.
Qed.

Lemma editorInvariant_initial : editorInvariant initial.
Proof.
  split; [reflexivity|]. split; [|left; reflexivity].
  split; [|split].
  - apply Forall_replicate. left. reflexivity.
  - vm_compute. lia.
  - vm_compute. lia.
Qed.

Lemma editorInvariant_press e g :
  editorInvariant e → rendered e g → editorInvariant (press e g).
Proof.
  intros (Hlen & Hb & Htool) Hg.
  destruct g as [t | idx]; unfold editorInvariant, press, rendered in *;
    cbn [myBoard activeTool].
  - split; [assumption|]. split; [assumption|]. exact Hg.
  - split; [rewrite boardAfterClick_length; assumption|].
    split; [|assumption].
    apply boardAfterClick_withinBounds; [assumption| |assumption].
    unfold isTile, Poison, Shield in *. lia.
Qed.

Lemma editorInvariant_presses gestures e :
  editorInvariant e → allRendered e gestures →
  editorInvariant (presses e gestures).
Proof.
  revert e. induction gestures as [|g rest IH]; intros e He Hall; [assumption|].
  destruct Hall as [Hg Hrest]. simpl.
  apply IH; [apply editorInvariant_press; assumption | assumption].
Qed.

(** [validateBoard] on a 15-slot board within the placement bounds. *)
Lemma validateBoard_within_bounds rev (tiles : Tiles) :
  length tiles = 15%nat → withinBounds tiles →
  ZkPoisonEngineBoard.validateBoard rev tiles
  = if bool_decide (countTile 1 tiles ≠ 2%nat)
    then rejected ((match rev with
                    | Terse => "Need exactly 2 poison tiles, got "
                    | Verbose => "Need 2 poison, got "
                    end) +:+ pretty (countTile 1 tiles))
    else if bool_decide (countTile 2 tiles ≠ 1%nat)
    then rejected ((match rev with
                    | Terse => "Need exactly 1 shield tile, got "
                    | Verbose => "Need 1 shield, got "
                    end) +:+ pretty (countTile 2 tiles))
    else accepted.
Proof.
  intros Hlen (Hall & _ & _). unfold ZkPoisonEngineBoard.validateBoard.
  rewrite bool_decide_eq_false_2 by (intros Hne; apply Hne, Hlen).
  apply some_notATile_false in Hall. rewrite Hall. reflexivity.
Qed.

Lemma validateBoard_valid_inv rev (tiles : Tiles) :
  valid (ZkPoisonEngineBoard.validateBoard rev tiles) = true →
  length tiles = 15%nat ∧ withinBounds tiles
  ∧ countTile 1 tiles = 2%nat ∧ countTile 2 tiles = 1%nat.
Proof.
  unfold ZkPoisonEngineBoard.validateBoard.
  case_bool_decide as Hlen; [discriminate|].
  destruct (some notATile tiles) eqn:Hsome; [discriminate|].
  case_bool_decide as Hp; [discriminate|].
  case_bool_decide as Hs; [discriminate|].
  intros _. apply some_notATile_false in Hsome.
  unfold withinBounds. repeat split; try assumption; lia.
Qed.

(** A board of tile values without Poison and Shield is all Normal. *)
Lemma all_Normal (tiles : Tiles) :
  Forall isTile tiles → countTile 1 tiles = 0%nat → countTile 2 tiles = 0%nat →
  tiles = replicate (length tiles) 0.
Proof.
  induction tiles as [|t tiles IH]; intros Hall Hp Hs; [reflexivity|].
  rewrite countTile_cons in Hp, Hs.
  inversion Hall as [|? ? Ht Hrest]; subst.
  repeat case_bool_decide; try lia.
  simpl. rewrite <- IH by (assumption || lia).
  f_equal. unfold isTile in Ht. lia.
Qed.

(** A board with a special tile has it in some slot. *)
Lemma special_slot (tiles : Tiles) :
  (0 < countTile 1 tiles + countTile 2 tiles)%nat →
  ∃ idx v, tiles !! idx = Some v ∧ (v = 1 ∨ v = 2).
Proof.
  induction tiles as [|t tiles IH]; intros Hpos.
  - vm_compute in Hpos. lia.
  - rewrite !countTile_cons in Hpos.
    destruct (decide (t = 1)) as [->|H1]; [exists 0%nat, 1; auto|].
    destruct (decide (t = 2)) as [->|H2]; [exists 0%nat, 2; auto|].
    rewrite !bool_decide_eq_false_2 in Hpos by assumption.
    destruct (IH Hpos) as (idx & v & Hv & Hkind).
    exists (S idx), v. auto.
Qed.

Lemma allRendered_app e gs1 gs2 :
  allRendered e gs1 → allRendered (presses e gs1) gs2 →
  allRendered e (gs1 ++ gs2)%list.
Proof.
  revert e. induction gs1 as [|g gs1 IH]; intros e H1 H2; [exact H2|].
  destruct H1 as [Hg H1]. split; [exact Hg|]. apply IH; assumption.
Qed.

(** Every 15-slot board within the bounds can be built: clear one special
    tile, build the rest, and put the tile back. *)
Lemma editor_builds (n : nat) :
  ∀ (tiles : Tiles) (tool : Z),
    length tiles = 15%nat → withinBounds tiles →
    (countTile 1 tiles + countTile 2 tiles = n)%nat →
    tool = Poison ∨ tool = Shield →
    ∃ gestures,
      allRendered initial gestures
      ∧ presses initial gestures = {| myBoard := tiles; activeTool := tool |}.
Proof.
  unfold Poison, Shield.
  induction n as [|n IH]; intros tiles tool Hlen Hb Hn Htool.
  - exists [ToolButton tool]. split; [split; [exact Htool | exact I]|].
    destruct Hb as (Hall & _ & _).
    rewrite (all_Normal tiles Hall) by lia. rewrite Hlen. reflexivity.
  - destruct (special_slot tiles ltac:(lia)) as (idx & v & Hv & Hkind).
    set (rest := <[idx := 0]> tiles).
    assert (rest !! idx = Some 0) as Hrest.
    { apply list_lookup_insert_eq. eapply lookup_lt_Some, Hv. }
    pose proof (countTile_insert 1 tiles idx 0 v Hv) as Hp.
    pose proof (countTile_insert 2 tiles idx 0 v Hv) as Hs.
    fold rest in Hp, Hs.
    rewrite (bool_decide_eq_false_2 (0 = 1)) in Hp by lia.
    rewrite (bool_decide_eq_false_2 (0 = 2)) in Hs by lia.
    assert (withinBounds rest) as Hbrest.
    { apply (withinBounds_after_set tiles idx Normal v);
        auto using isTile_Normal; unfold Normal, Poison, Shield; lia. }
    assert (length rest = 15%nat) as Hlenrest
      by (unfold rest; rewrite length_insert; exact Hlen).
    assert (countTile 1 rest + countTile 2 rest = n)%nat as Hnrest
      by (destruct Hkind as [-> | ->]; repeat case_bool_decide; lia).
    destruct (IH rest v Hlenrest Hbrest Hnrest Hkind) as (gs & Hgs & Hend).
    exists (gs ++ [TileButton idx; ToolButton tool])%list. split.
    + apply allRendered_app; [exact Hgs|]. rewrite Hend.
      split; [simpl; rewrite Hlenrest; apply lookup_lt_Some in Hv; lia|].
      split; [exact Htool | exact I].
    + unfold presses in *. rewrite foldl_app, Hend. simpl.
      f_equal. unfold boardAfterClick, onClick.
      rewrite Hrest.
      rewrite bool_decide_eq_false_2 by (intros [= <-]; lia).
      rewrite bool_decide_eq_false_2
        by (intros (-> & Hfull & _); destruct Hb as (_ & Hb1 & _);
            repeat case_bool_decide; lia).
      rewrite bool_decide_eq_false_2
        by (intros (-> & Hfull & _); destruct Hb as (_ & _ & Hb2);
            repeat case_bool_decide; lia).
      simpl. unfold rest. rewrite list_insert_insert_eq.
      apply list_insert_id, Hv.
Qed.

End EditorSessionFacts.

(** X17. In the board editor, starting from the empty board with the Poison
    tool selected, every sequence of presses of tool buttons and tile
    buttons leaves a board of 15 tile values with at most two Poison and at
    most one Shield, and one of the two tools selected.  So the verdict of
    [validateBoard] on the edited board depends on the two counters alone:
    it is valid exactly when they read 2 and 1, and the only errors it can
    report are the Poison count, below two, and a Shield count of zero. *)
Theorem editor_session_invariant (rev : Revision)
    (gestures : list EditorSession.Gesture) :
  EditorSession.allRendered EditorSession.initial gestures →
  let board :=
    EditorSession.myBoard
      (EditorSession.presses EditorSession.initial gestures) in
  let report := ZkPoisonEngineBoard.validateBoard rev board in
  EditorSession.editorInvariant
    (EditorSession.presses EditorSession.initial gestures)
  ∧ (valid report = true
     ↔ countTile Poison board = 2%nat ∧ countTile Shield board = 1%nat)
  ∧ (countTile Poison board ≠ 2%nat →
     (countTile Poison board < 2)%nat
     ∧ report = rejected ((match rev with
                           | Terse => "Need exactly 2 poison tiles, got "
                           | Verbose => "Need 2 poison, got "
                           end) +:+ pretty (countTile Poison board)))
  ∧ (countTile Poison board = 2%nat → countTile Shield board ≠ 1%nat →
     report = rejected (match rev with
                        | Terse => "Need exactly 1 shield tile, got 0"
                        | Verbose => "Need 1 shield, got 0"
                        end)).
Proof.
  intros Hall board report.
  pose proof (editorInvariant_presses gestures EditorSession.initial
                editorInvariant_initial Hall) as Hinv.
  split; [exact Hinv|].
  destruct Hinv as (Hlen & Hb & _). fold board in Hlen, Hb.
  subst report. rewrite (validateBoard_within_bounds rev board Hlen Hb).
  destruct Hb as (_ & Hp & Hs). unfold Poison, Shield.
  split; [|split].
  - repeat case_bool_decide; simpl; split; intros; destruct_and?;
      try discriminate; try tauto; try lia.
  - intros Hne. rewrite bool_decide_eq_true_2 by exact Hne.
    split; [lia | reflexivity].
  - intros Heq Hne. rewrite bool_decide_eq_false_2 by (intros H; apply H, Heq).
    rewrite bool_decide_eq_true_2 by exact Hne.
    replace (countTile 2 board) with 0%nat by lia.
    destruct rev; reflexivity.
Qed.

Lemma editor_session_invariant_witness :
  let gestures :=
    [EditorSession.TileButton 3; EditorSession.TileButton 9;
     EditorSession.TileButton 5; EditorSession.ToolButton 2;
     EditorSession.TileButton 12] in
  EditorSession.allRendered EditorSession.initial gestures
  ∧ EditorSession.myBoard (EditorSession.presses EditorSession.initial gestures)
    = [0;0;0;1;0;0;0;0;0;1;0;0;2;0;0]
  ∧ valid (ZkPoisonEngineBoard.validateBoard Terse
             (EditorSession.myBoard
                (EditorSession.presses EditorSession.initial gestures)))
    = true.
Proof.
  intros gestures.
  assert (EditorSession.allRendered EditorSession.initial gestures) as Hall
    by (vm_compute; repeat split; auto; lia).
  split; [exact Hall|]. split; [reflexivity|].
  pose proof (editor_session_invariant Terse gestures Hall) as (_ & Hiff & _).
  apply Hiff. split; reflexivity.
Defined.

(** X18. The editor can build every board [validateBoard] accepts: for an
    accepted board and either tool there is a sequence of button presses
    that leads from the initial editor state to that board with that tool
    selected. *)
Theorem editor_reaches_every_valid_board (rev : Revision)
    (tiles : Tiles) (tool : Z) :
  valid (ZkPoisonEngineBoard.validateBoard rev tiles) = true →
  tool = Poison ∨ tool = Shield →
  ∃ gestures,
    EditorSession.allRendered EditorSession.initial gestures
    ∧ EditorSession.presses EditorSession.initial gestures
      = {| EditorSession.myBoard := tiles; EditorSession.activeTool := tool |}.
Proof.
  intros Hvalid Htool.
  destruct (validateBoard_valid_inv rev tiles Hvalid) as (Hlen & Hb & Hp & Hs).
  apply (editor_builds 3 tiles tool Hlen Hb); [lia | exact Htool].
Qed.

Lemma editor_reaches_every_valid_board_witness :
  ∃ gestures,
    EditorSession.allRendered EditorSession.initial gestures
    ∧ EditorSession.presses EditorSession.initial gestures
      = {| EditorSession.myBoard := [2;0;0;0;0;0;0;1;0;0;0;0;0;0;1];
           EditorSession.activeTool := Shield |}.
Proof.
  apply (editor_reaches_every_valid_board Verbose
           [2;0;0;0;0;0;0;1;0;0;0;0;0;0;1] Shield).
  - reflexivity.
  - right. reflexivity.
Defined.

(** ** The action lock over a whole session *)

Section ActionLockMoreFacts.
Import ActionLock.
Context {Action : Type} `{EqDecision Action}.

Lemma step_lock_tracks_running (st : Runner Action) (s : Step Action) :
  s ≠ PlayAgain →
  (actionLock st = false ∧ pending st = [])
  ∨ (∃ a, actionLock st = true ∧ pending st = [a]
          ∧ last (entered st) = Some a) →
  (actionLock (step st s) = false ∧ pending (step st s) = [])
  ∨ (∃ a, actionLock (step st s) = true ∧ pending (step st s) = [a]
          ∧ last (entered (step st s)) = Some a).
Proof.
  intros Hs Hst. destruct s as [isBusy action | action how |]; simpl;
    [| |congruence].
  - unfold runAction_enter.
    destruct (actionLock st || isBusy) eqn:Hl; simpl; [exact Hst|].
    apply orb_false_elim in Hl as [Hl _].
    destruct Hst as [[_ Hp] | (a & Hheld & _)]; [|congruence].
    right. exists action. simpl. rewrite Hp, last_snoc. auto.
  - case_bool_decide as Hin; [|exact Hst]. simpl.
    destruct Hst as [[_ Hp] | (a & _ & Hp & _)].
    + rewrite Hp in Hin. inversion Hin.
    + rewrite Hp in Hin. apply list_elem_of_singleton in Hin. subst a.
      left. split; [reflexivity|].
      rewrite Hp, filter_cons, decide_False
        by (intros Hc; apply Hc; reflexivity).
      reflexivity.
Qed.

Lemma run_lock_tracks_running (steps : list (Step Action)) :
  uninterrupted steps = true →
  (actionLock (run idle steps) = false ∧ pending (run idle steps) = [])
  ∨ (∃ a, actionLock (run idle steps) = true ∧ pending (run idle steps) = [a]
          ∧ last (entered (run idle steps)) = Some a).
Proof.
  induction steps as [|s steps IH] using rev_ind; intros Hsteps.
  - left. split; reflexivity.
  - unfold uninterrupted in *. rewrite forallb_app in Hsteps.
    apply andb_true_iff in Hsteps as [Hsteps Hs]. simpl in Hs.
    unfold run in *. rewrite foldl_app. simpl.
    apply step_lock_tracks_running; [|apply IH, Hsteps].
    intros ->. discriminate.
Qed.

End ActionLockMoreFacts.

(** X19. As long as Play Again is not pressed, the lock is held exactly
    while one action body is running: from the idle component, after any
    sequence of [runAction] calls and completions of entered actions, either
    the lock is free and no body runs, or the lock is held and exactly one
    body runs, that of the action entered last.  Play Again breaks this: it
    frees the lock while the body is still awaited, and the next
    [runAction] of an idle-looking component enters a second body, so that
    two run at once. *)
Theorem runAction_lock_tracks_running {Action : Type} `{EqDecision Action}
    (steps : list (ActionLock.Step Action)) :
  ActionLock.uninterrupted steps = true →
  let st := ActionLock.run ActionLock.idle steps in
  ((ActionLock.actionLock st = false ∧ ActionLock.pending st = [])
   ∨ (∃ a, ActionLock.actionLock st = true ∧ ActionLock.pending st = [a]
           ∧ last (ActionLock.entered st) = Some a))
  ∧ (∀ a b,
       ActionLock.pending st = [a] →
       let st' :=
         ActionLock.run st
           [ActionLock.PlayAgain; ActionLock.Invoke false b] in
       ActionLock.actionLock st' = true ∧ ActionLock.pending st' = [b; a]).
Proof.
  intros Hsteps st. split; [apply run_lock_tracks_running, Hsteps|].
  intros a b Hp st'. subst st'. simpl.
  unfold ActionLock.runAction_enter, ActionLock.handlePlayAgain. simpl.
  rewrite Hp. split; reflexivity.
Qed.

Lemma runAction_lock_tracks_running_witness :
  let st :=
    ActionLock.run ActionLock.idle
      [ActionLock.Invoke false "respond";
       ActionLock.Settle "respond" ActionLock.Fulfilled;
       ActionLock.Invoke true "attack";
       ActionLock.Invoke false "respond"] in
  ActionLock.pending st = ["respond"]
  ∧ ActionLock.pending
      (ActionLock.run st [ActionLock.PlayAgain; ActionLock.Invoke false "attack"])
    = ["attack"; "respond"].
Proof.
  intros st. split; [reflexivity|].
  pose proof (runAction_lock_tracks_running
                [ActionLock.Invoke false "respond";
                 ActionLock.Settle "respond" ActionLock.Fulfilled;
                 ActionLock.Invoke true "attack";
                 ActionLock.Invoke false "respond"] eq_refl) as [_ Hbreak].
  exact (proj2 (Hbreak "respond" "attack" eq_refl)).
Defined.

(** ** Committing a board *)

Section CommitHandlerFacts.
Import BoardStore CommitHandler.

Lemma generateSalt_nonneg (random31 : list Byte.byte) :
  0 ≤ ZkPoisonEngineRest.generateSalt random31.
Proof. apply saltOfBytes_range. Qed.

Lemma loadBoard_saved (BigInt : string → option Z) st sid addr
    (myBoard : Tiles) (random31 commitment : list Byte.byte) :
  Text.reads_decimal BigInt → usable st = true →
  loadBoard BigInt
    (saveBoard st sid addr myBoard
       (ZkPoisonEngineRest.generateSalt random31) commitment) sid addr
  = Some {| tiles := myBoard;
            salt := ZkPoisonEngineRest.generateSalt random31;
            commitment := commitment |}.
Proof.
  intros HBigInt Husable.
  unfold loadBoard, saveBoard. rewrite Husable. simpl.
  rewrite lookup_insert_eq. simpl.
  destruct (pretty_Z_decimal _ (generateSalt_nonneg random31))
    as (Hne & Hall & Hval).
  rewrite (HBigInt _ Hne Hall), Hval, fromHex_toHex. reflexivity.
Qed.

Lemma loadBoard_cleared (BigInt : string → option Z) st sid addr :
  loadBoard BigInt (clearBoard st sid addr) sid addr = None.
Proof.
  unfold loadBoard, clearBoard.
  destruct (usable st) eqn:Husable; simpl; rewrite ?Husable; [|reflexivity].
  rewrite lookup_delete_eq. reflexivity.
Qed.

End CommitHandlerFacts.

(** X20. [handleCommitBoard] keeps the board in [localStorage] exactly when
    the commit went through.  With a valid board not yet committed and a
    usable storage: the handler never rejects; when hashing, the signer and
    the service's [commitBoard] all succeed, [loadBoard] afterwards returns
    the edited board with the salt drawn and the commitment computed; when
    any of the three throws, [loadBoard] afterwards returns null, whatever
    was stored for this session and player before.  With an invalid or an
    already committed board the handler does nothing. *)
Theorem handleCommitBoard_stores_iff_committed
    (BigInt : string → option Z) (st : BoardStore.LocalStorage)
    (sid : Z) (addr : string) (myBoard : Tiles)
    (random31 : list Byte.byte) (r : CommitHandler.Remote) :
  Text.reads_decimal BigInt →
  BoardStore.usable st = true →
  let done :=
    CommitHandler.handleCommitBoard true false sid addr myBoard random31 r st in
  done.2 = Ok tt
  ∧ (∀ commitment,
       CommitHandler.hashed r = Ok commitment →
       CommitHandler.signer r = Ok tt →
       CommitHandler.committed r = Ok tt →
       BoardStore.loadBoard BigInt done.1 sid addr
       = Some {| BoardStore.tiles := myBoard;
                 BoardStore.salt := ZkPoisonEngineRest.generateSalt random31;
                 BoardStore.commitment := commitment |})
  ∧ (is_Ok (CommitHandler.hashed r) && is_Ok (CommitHandler.signer r)
     && is_Ok (CommitHandler.committed r) = false →
     BoardStore.loadBoard BigInt done.1 sid addr = None)
  ∧ (∀ boardValid boardCommitted,
       boardValid = false ∨ boardCommitted = true →
       CommitHandler.handleCommitBoard boardValid boardCommitted sid addr
         myBoard random31 r st = (st, Ok tt)).
Proof.
  intros HBigInt Husable done. subst done.
  unfold CommitHandler.handleCommitBoard.
  cbv beta iota zeta delta [negb orb try_catch await CommitHandler.remote
                            modify resolve].
  split; [|split; [|split]].
  - destruct (CommitHandler.hashed r) as [c|e]; [|reflexivity].
    destruct (CommitHandler.signer r) as [[]|e]; [|reflexivity].
    destruct (CommitHandler.committed r) as [[]|e]; reflexivity.
  - intros c -> -> ->. simpl. apply loadBoard_saved; assumption.
  - destruct (CommitHandler.hashed r) as [c|e]; simpl;
      [|intros _; apply loadBoard_cleared].
    destruct (CommitHandler.signer r) as [[]|e]; simpl;
      [|intros _; apply loadBoard_cleared].
    destruct (CommitHandler.committed r) as [[]|e]; simpl;
      [discriminate | intros _; apply loadBoard_cleared].
  - intros boardValid boardCommitted [-> | ->]; [reflexivity|].
    destruct boardValid; reflexivity.
Qed.

Lemma handleCommitBoard_stores_iff_committed_witness :
  let failing :=
    {| CommitHandler.hashed := Ok [Byte.x0a; Byte.xff];
       CommitHandler.signer := Ok tt;
       CommitHandler.committed := Throw (Error "Transaction failed");
       CommitHandler.reloaded := Ok tt |} in
  BoardStore.loadBoard Text.decimalBigInt
    (CommitHandler.handleCommitBoard true false 42 "GALICE" Sample.board
       (replicate 31 Byte.x01) failing SampleMore.emptyStorage).1 42 "GALICE"
  = None.
Proof.
  intros failing.
  pose proof (handleCommitBoard_stores_iff_committed Text.decimalBigInt
                SampleMore.emptyStorage 42 "GALICE" Sample.board
                (replicate 31 Byte.x01) failing
                decimalBigInt_reads_decimal eq_refl) as (_ & _ & Hfail & _).
  apply Hfail. reflexivity.
Defined.

(** X21. The other revision of [handleCommitBoard] never removes the stored
    board: with a valid board and a usable storage, once hashing and the
    signer succeeded the board is stored and stays stored, so [loadBoard]
    returns it also when the service's [commitBoard] threw; when hashing or
    the signer threw, the storage is as it was.  The handler never
    rejects. *)
Theorem handleCommitBoardRev_keeps_stored_board
    (BigInt : string → option Z) (st : BoardStore.LocalStorage)
    (sid : Z) (addr : string) (myBoard : Tiles)
    (random31 : list Byte.byte) (r : CommitHandler.Remote) :
  Text.reads_decimal BigInt →
  BoardStore.usable st = true →
  let done :=
    CommitHandler.handleCommitBoardRev true sid addr myBoard random31 r st in
  done.2 = Ok tt
  ∧ (∀ commitment,
       CommitHandler.hashed r = Ok commitment →
       CommitHandler.signer r = Ok tt →
       BoardStore.loadBoard BigInt done.1 sid addr
       = Some {| BoardStore.tiles := myBoard;
                 BoardStore.salt := ZkPoisonEngineRest.generateSalt random31;
                 BoardStore.commitment := commitment |})
  ∧ (is_Ok (CommitHandler.hashed r) && is_Ok (CommitHandler.signer r) = false →
     done.1 = st).
Proof.
  intros HBigInt Husable done. subst done.
  unfold CommitHandler.handleCommitBoardRev.
  cbv beta iota zeta delta [negb try_catch await CommitHandler.remote
                            modify resolve].
  split; [|split].
  - destruct (CommitHandler.hashed r) as [c|e]; [|reflexivity].
    destruct (CommitHandler.signer r) as [[]|e]; [|reflexivity].
    destruct (CommitHandler.committed r) as [[]|e]; [|reflexivity].
    destruct (CommitHandler.reloaded r) as [[]|e]; reflexivity.
  - intros c -> ->.
    destruct (CommitHandler.committed r) as [[]|e];
      [destruct (CommitHandler.reloaded r) as [[]|e]|];
      simpl; apply loadBoard_saved; assumption.
  - destruct (CommitHandler.hashed r) as [c|e]; simpl; [|reflexivity].
    destruct (CommitHandler.signer r) as [[]|e]; simpl;
      [discriminate | reflexivity].
Qed.

Lemma handleCommitBoardRev_keeps_stored_board_witness :
  let failing :=
    {| CommitHandler.hashed := Ok [Byte.x0a; Byte.xff];
       CommitHandler.signer := Ok tt;
       CommitHandler.committed := Throw (Error "Transaction failed");
       CommitHandler.reloaded := Ok tt |} in
  BoardStore.loadBoard Text.decimalBigInt
    (CommitHandler.handleCommitBoardRev true 42 "GALICE" Sample.board
       (replicate 31 Byte.x01) failing SampleMore.emptyStorage).1 42 "GALICE"
  = Some {| BoardStore.tiles := Sample.board;
            BoardStore.salt :=
              ZkPoisonEngineRest.generateSalt (replicate 31 Byte.x01);
            BoardStore.commitment := [Byte.x0a; Byte.xff] |}.
Proof.
  intros failing.
  pose proof (handleCommitBoardRev_keeps_stored_board Text.decimalBigInt
                SampleMore.emptyStorage 42 "GALICE" Sample.board
                (replicate 31 Byte.x01) failing
                decimalBigInt_reads_decimal eq_refl) as (_ & Hkeep & _).
  apply Hkeep; reflexivity.
Defined.
